(** * MAG_attrition_pipeline.py: a shallow embedding of the attrition
    aggregation engine and of the binned-reference cache.

    Conventions of the embedding:
    - Python [str] values are modelled as ASCII strings ([String.string]);
      [str.isspace] is the ASCII whitespace set of Python
      (\t \n \x0b \x0c \r, \x1c-\x1f and the space).
    - Python exceptions are the constructors of [exn]; a fallible function
      returns a [result].
    - A Python [dict] is an insertion-ordered association list with unique
      keys ([Dict.dict]); [d[k] = v] replaces in place or appends.
    - Python floats produced by [gc_fraction] and the proportions of the
      table are modelled by exact rationals ([Qc]); rounding is not modelled.
    - Text files are lists of lines as [for line in f] / [readline] yield
      them (every line but possibly the last ends in a newline). *)

From Stdlib Require Import String Ascii List ZArith QArith Qcanon Bool Lia.
From Stdlib Require Import Permutation Sorted DecimalString DecimalZ.
From Stdlib Require Decimal DecimalPos OrdersEx.
Import ListNotations.

Local Open Scope list_scope.
Local Open Scope string_scope.

(* ------------------------------------------------------------------ *)
(** ** Python runtime: exceptions and results *)

Inductive exn : Type :=
| IndexError
| ZeroDivisionError
| IsADirectoryError
| FileNotFoundError
| PermissionError
| UnicodeDecodeError.

Inductive result (A : Type) : Type :=
| Ok (a : A)
| Raise (e : exn).
Arguments Ok {A} a.
Arguments Raise {A} e.

Definition bind {A B} (m : result A) (f : A -> result B) : result B :=
  match m with
  | Ok a => f a
  | Raise e => Raise e
  end.

Notation "'let!' x := m 'in' k" := (bind m (fun x => k))
  (at level 200, x name, m at level 100, k at level 200).

(* ------------------------------------------------------------------ *)
(** ** Python string methods on ASCII strings *)

Module Py.
Local Open Scope nat_scope.

Definition TAB : ascii := ascii_of_nat 9.
Definition NL : ascii := ascii_of_nat 10.

(** [str.isspace] on one ASCII character. *)
Definition is_space (c : ascii) : bool :=
  let n := nat_of_ascii c in
  ((9 <=? n) && (n <=? 13)) || ((28 <=? n) && (n <=? 32)).

Fixpoint lstrip_by (p : ascii -> bool) (s : string) : string :=
  match s with
  | EmptyString => EmptyString
  | String c r => if p c then lstrip_by p r else s
  end.

Fixpoint rstrip_by (p : ascii -> bool) (s : string) : string :=
  match s with
  | EmptyString => EmptyString
  | String c r =>
      let r' := rstrip_by p r in
      match r' with
      | EmptyString => if p c then EmptyString else String c EmptyString
      | _ => String c r'
      end
  end.

(** [s.strip()] *)
Definition strip (s : string) : string := rstrip_by is_space (lstrip_by is_space s).

(** [s.rstrip("\n")] *)
Definition rstrip_nl (s : string) : string :=
  rstrip_by (fun c => Ascii.eqb c NL) s.

(** Split at every character satisfying [p], keeping empty fields:
    [s.split(sep)] for a one-character separator. *)
Fixpoint split_by (p : ascii -> bool) (s : string) : list string :=
  match s with
  | EmptyString => [EmptyString]
  | String c r =>
      let parts := split_by p r in
      if p c then EmptyString :: parts
      else match parts with
           | w :: ws => String c w :: ws
           | [] => [String c EmptyString]
           end
  end.

(** [s.split(sep)] with a one-character separator. *)
Definition split (sep : ascii) (s : string) : list string :=
  split_by (fun c => Ascii.eqb c sep) s.

(** [s.split()]: split at whitespace runs, dropping empty words. *)
Definition split_ws (s : string) : list string :=
  filter (fun w => negb (String.eqb w EmptyString)) (split_by is_space s).

(** [sep.join(xs)] *)
Fixpoint join (sep : string) (xs : list string) : string :=
  match xs with
  | [] => EmptyString
  | [x] => x
  | x :: xs' => x ++ sep ++ join sep xs'
  end.

(** [s.upper()] on ASCII. *)
Definition upper_char (c : ascii) : ascii :=
  let n := nat_of_ascii c in
  if (97 <=? n) && (n <=? 122) then ascii_of_nat (n - 32) else c.

Fixpoint upper (s : string) : string :=
  match s with
  | EmptyString => EmptyString
  | String c r => String (upper_char c) (upper r)
  end.

(** [s.count(c)] for a one-character [c]. *)
Fixpoint count (c : ascii) (s : string) : nat :=
  match s with
  | EmptyString => 0
  | String d r => (if Ascii.eqb c d then 1 else 0) + count c r
  end.

(** [s.startswith(p)] *)
Definition startswith (p s : string) : bool := String.prefix p s.

(** [s[1:]] *)
Definition drop1 (s : string) : string :=
  match s with
  | EmptyString => EmptyString
  | String _ r => r
  end.

(** [str(n)] for a Python int. *)
Definition str_int (z : Z) : string := NilZero.string_of_int (Z.to_int z).

End Py.

(* ------------------------------------------------------------------ *)
(** ** Python dicts: insertion-ordered association lists *)

Module Dict.

Definition dict (V : Type) := list (string * V).

Definition empty {V} : dict V := [].

(** [d.get(k)] *)
Fixpoint get {V} (d : dict V) (k : string) : option V :=
  match d with
  | [] => None
  | (k', v) :: d' => if String.eqb k k' then Some v else get d' k
  end.

(** [d[k] = v]: an existing key keeps its position, a new key is appended. *)
Fixpoint set {V} (d : dict V) (k : string) (v : V) : dict V :=
  match d with
  | [] => [(k, v)]
  | (k', v') :: d' => if String.eqb k k' then (k', v) :: d' else (k', v') :: set d' k v
  end.

(** [d[k]] on a [defaultdict] whose factory returns [dflt]. *)
Definition get_default {V} (dflt : V) (d : dict V) (k : string) : V :=
  match get d k with Some v => v | None => dflt end.

End Dict.

(* ------------------------------------------------------------------ *)
(** ** Lineage Builder: [rank_prefix] and [parse_report_build_label_map] *)

Module Lineage.
Import Py.

Definition rank_prefix (rank : string) : option string :=
  if String.eqb rank "D" then Some "d__"
  else if String.eqb rank "K" then Some "k__"
  else if String.eqb rank "P" then Some "p__"
  else if String.eqb rank "C" then Some "c__"
  else if String.eqb rank "O" then Some "o__"
  else if String.eqb rank "F" then Some "f__"
  else if String.eqb rank "G" then Some "g__"
  else if String.eqb rank "S" then Some "s__"
  else None.

(** A report row as the loop body reads it: rank, taxid, name. *)
Record row := mk_row { rank : string; taxid : string; name : string }.

(** The first half of the loop body: skip blank lines and lines with
    fewer than six tab-separated fields. *)
Definition parse_row (line : string) : option row :=
  if String.eqb (strip line) EmptyString then None
  else
    let parts := split TAB (rstrip_nl line) in
    if Nat.ltb (List.length parts) 6 then None
    else Some (mk_row (nth 3 parts EmptyString) (nth 4 parts EmptyString)
                      (strip (nth 5 parts EmptyString))).

Record report_state := mk_rstate {
  taxid_to_lineage : Dict.dict string;
  lineage_by_rank : Dict.dict string
}.

Definition ordered_ranks (rk : string) : list string :=
  app ["D"; "K"; "P"; "C"; "O"; "F"; "G"] (if String.eqb rk "S" then ["S"] else []).

(** [[lineage_by_rank[r] for r in ordered if r in lineage_by_rank]] *)
Fixpoint present (ladder : Dict.dict string) (rs : list string) : list string :=
  match rs with
  | [] => []
  | r :: rs' =>
      match Dict.get ladder r with
      | Some l => l :: present ladder rs'
      | None => present ladder rs'
      end
  end.

(** The second half of the loop body, on a parsed row. *)
Definition row_step (st : report_state) (r : row) : report_state :=
  let ladder :=
    match rank_prefix (rank r) with
    | Some pref => Dict.set (lineage_by_rank st) (rank r) (pref ++ name r)
    | None => lineage_by_rank st
    end in
  if String.eqb (rank r) "G" || String.eqb (rank r) "S" then
    let lineage_str := join ";" (present ladder (ordered_ranks (rank r))) in
    mk_rstate (Dict.set (taxid_to_lineage st) (taxid r) lineage_str) ladder
  else mk_rstate (taxid_to_lineage st) ladder.

Definition report_step (st : report_state) (line : string) : report_state :=
  match parse_row line with
  | None => st
  | Some r => row_step st r
  end.

Definition parse_report_build_label_map (lines : list string) : Dict.dict string :=
  taxid_to_lineage (fold_left report_step lines (mk_rstate Dict.empty Dict.empty)).

End Lineage.

(** ** Preconditions of a valid rank report *)

Module LineageSpec.
Import Py Lineage.

Definition SEMI : ascii := ";"%char.

Definition is_genus_or_species (rk : string) : bool :=
  String.eqb rk "G" || String.eqb rk "S".

(** The rows the loop body does not skip, in file order. *)
Definition report_rows (lines : list string) : list row :=
  flat_map (fun l => match parse_row l with Some r => [r] | None => [] end) lines.

(** Top-down order: before a genus row a row of each rank domain ... family
    has been seen; before a species row, also a genus row. *)
Fixpoint top_down_from (seen : list string) (rows : list row) : bool :=
  match rows with
  | [] => true
  | r :: rs =>
      (if is_genus_or_species (rank r) then
         forallb (fun a => String.eqb a (rank r) || existsb (String.eqb a) seen)
                 (ordered_ranks (rank r))
       else true)
      && top_down_from (rank r :: seen) rs
  end.

Definition top_down (rows : list row) : bool := top_down_from [] rows.

Fixpoint distinct (xs : list string) : bool :=
  match xs with
  | [] => true
  | x :: xs' => negb (existsb (String.eqb x) xs') && distinct xs'
  end.

(** Display names hold no lineage separator. *)
Definition names_plain (rows : list row) : bool :=
  forallb (fun r => Nat.eqb (count SEMI (name r)) 0) rows.

(** The fixed rank-prefix table, domain to genus (to species). *)
Definition expected_prefixes (rk : string) : list string :=
  app ["d__"; "k__"; "p__"; "c__"; "o__"; "f__"; "g__"]
      (if String.eqb rk "S" then ["s__"] else []).

Definition lineage_depth (rk : string) : nat := if String.eqb rk "S" then 8 else 7.

End LineageSpec.

Module LineageTests.
Import Py Lineage LineageSpec.

Definition tab_line (fields : list string) : string :=
  join (String TAB EmptyString) fields ++ String NL EmptyString.

Definition sample_report : list string :=
  [ tab_line ["90.0"; "9"; "9"; "D"; "2"; "  Bacteria"];
    tab_line ["90.0"; "9"; "9"; "K"; "20"; "   Bact"];
    tab_line ["90.0"; "9"; "9"; "P"; "1239"; "    Firmicutes"];
    tab_line ["90.0"; "9"; "9"; "C"; "91061"; "     Bacilli"];
    tab_line ["90.0"; "9"; "9"; "O"; "1385"; "      Bacillales"];
    tab_line ["90.0"; "9"; "9"; "F"; "186817"; "       Bacillaceae"];
    tab_line ["90.0"; "9"; "9"; "G"; "1386"; "        Bacillus"];
    tab_line ["90.0"; "9"; "9"; "S"; "1423"; "         Bacillus subtilis"] ].

Example sample_report_species :
  Dict.get (parse_report_build_label_map sample_report) "1423" =
  Some "d__Bacteria;k__Bact;p__Firmicutes;c__Bacilli;o__Bacillales;f__Bacillaceae;g__Bacillus;s__Bacillus subtilis".
Proof. vm_compute. reflexivity. Qed.

Example sample_report_valid :
  top_down (report_rows sample_report) = true /\
  distinct (map taxid (report_rows sample_report)) = true /\
  names_plain (report_rows sample_report) = true.
Proof. vm_compute. repeat split. Qed.

End LineageTests.

(* ------------------------------------------------------------------ *)
(** ** Read ids and the Classification Index ([load_kraken_read_map]) *)

Module Reads.
Import Py.

Definition normalize_read_id (s : string) : result string :=
  let s := strip s in
  let s := if startswith "@" s then drop1 s else s in
  match split_ws s with
  | [] => Raise IndexError            (* [s.split()[0]] on an empty list *)
  | w :: _ => Ok w
  end.

(** Threading a fallible loop body through the lines of a file. *)
Fixpoint fold_result {S X : Type} (f : S -> X -> result S) (xs : list X) (s : S)
  : result S :=
  match xs with
  | [] => Ok s
  | x :: xs' => let! s' := f s x in fold_result f xs' s'
  end.

Definition kraken_step (classified_only : bool) (read_to_taxid : Dict.dict string)
    (line : string) : result (Dict.dict string) :=
  if String.eqb (strip line) EmptyString then Ok read_to_taxid
  else
    let parts := split TAB (rstrip_nl line) in
    if Nat.ltb (List.length parts) 3 then Ok read_to_taxid
    else
      let status := nth 0 parts EmptyString in
      if classified_only && negb (String.eqb status "C") then Ok read_to_taxid
      else
        let! read_id := normalize_read_id (nth 1 parts EmptyString) in
        let taxid := nth 2 parts EmptyString in
        Ok (Dict.set read_to_taxid read_id taxid).

Definition load_kraken_read_map (lines : list string) (classified_only : bool)
  : result (Dict.dict string) :=
  fold_result (kraken_step classified_only) lines Dict.empty.

End Reads.

(* ------------------------------------------------------------------ *)
(** ** Composition statistic ([gc_fraction]) *)

Module GC.
Import Py.

Definition Z2Qc (z : Z) : Qc := Q2Qc (inject_Z z).

Definition gc_fraction (seq : string) : Qc :=
  let seq := upper (strip seq) in
  match seq with
  | EmptyString => 0
  | _ =>
      let gc := (count "G"%char seq + count "C"%char seq)%nat in
      Q2Qc (inject_Z (Z.of_nat gc) / inject_Z (Z.of_nat (String.length seq)))
  end.

End GC.

(* ------------------------------------------------------------------ *)
(** ** Stream Aggregator ([process_fastq]) *)

Module Agg.
Import Py Reads GC.

(** The two [file_key] values passed by [write_attrition_csv]. *)
Inductive file_key := Mapped | Unmapped.

(** [{"total": .., "mapped": .., "unmapped": ..}] *)
Record counts_t := mk_counts { total : Z; mapped : Z; unmapped : Z }.

Definition zero_counts : counts_t := mk_counts 0 0 0.

(** [counts[lineage]["total"] += 1; counts[lineage][file_key] += 1] *)
Definition bump (fk : file_key) (c : counts_t) : counts_t :=
  match fk with
  | Mapped => mk_counts (total c + 1) (mapped c + 1) (unmapped c)
  | Unmapped => mk_counts (total c + 1) (mapped c) (unmapped c + 1)
  end.

(** The three defaultdicts [counts], [gc_sum], [gc_n]. *)
Record acc := mk_acc {
  counts : Dict.dict counts_t;
  gc_sum : Dict.dict Qc;
  gc_n : Dict.dict Z
}.

Definition empty_acc : acc := mk_acc Dict.empty Dict.empty Dict.empty.

Definition add_read (fk : file_key) (lineage : string) (g : Qc) (st : acc) : acc :=
  mk_acc
    (Dict.set (counts st) lineage (bump fk (Dict.get_default zero_counts (counts st) lineage)))
    (Dict.set (gc_sum st) lineage (Dict.get_default 0 (gc_sum st) lineage + g))
    (Dict.set (gc_n st) lineage (Dict.get_default 0%Z (gc_n st) lineage + 1)%Z).

(** [taxid_to_lineage.get(read_to_taxid.get(read_id))]; a [None] taxid finds
    no key. *)
Definition lookup_lineage (read_to_taxid taxid_to_lineage : Dict.dict string)
    (read_id : string) : option string :=
  match Dict.get read_to_taxid read_id with
  | Some taxid => Dict.get taxid_to_lineage taxid
  | None => None
  end.

(** The body of the [while] loop for one record [h, seq, _, qual]. *)
Definition ingest (read_to_taxid taxid_to_lineage : Dict.dict string) (fk : file_key)
    (h seq : string) (st : acc) : result acc :=
  let! read_id := normalize_read_id h in
  match lookup_lineage read_to_taxid taxid_to_lineage read_id with
  | None => Ok st
  | Some lineage =>
      if String.eqb lineage EmptyString then Ok st      (* [if not lineage] *)
      else Ok (add_read fk lineage (gc_fraction seq) st)
  end.

(** [process_fastq] over the lines [readline] returns. A line returned by
    [readline] is empty only at end of file, so [if not h] and
    [if not qual] stop the loop exactly when fewer than four lines remain. *)
Fixpoint process_fastq (lines : list string) (read_to_taxid taxid_to_lineage : Dict.dict string)
    (fk : file_key) (st : acc) : result acc :=
  match lines with
  | h :: seq :: _ :: _ :: rest =>
      let! st' := ingest read_to_taxid taxid_to_lineage fk h seq st in
      process_fastq rest read_to_taxid taxid_to_lineage fk st'
  | _ => Ok st
  end.

(** A 4-line record of a read-stream file. *)
Record fq_record := mk_fq { hdr : string; sq : string; sep : string; qual : string }.

Definition record_lines (r : fq_record) : list string := [hdr r; sq r; sep r; qual r].

(** The accumulator after the two passes of [write_attrition_csv]
    (lines 143-148): the mapped file, then the unmapped file. *)
Definition aggregate (read_to_taxid taxid_to_lineage : Dict.dict string)
    (mapped_fastq unmapped_fastq : list string) : result acc :=
  let! st1 := process_fastq mapped_fastq read_to_taxid taxid_to_lineage Mapped empty_acc in
  process_fastq unmapped_fastq read_to_taxid taxid_to_lineage Unmapped st1.

(** What the accumulator holds for one lineage: its counts, GC sum and GC
    sample count. *)
Definition view (st : acc) (l : string) : option counts_t * option Qc * option Z :=
  (Dict.get (counts st) l, Dict.get (gc_sum st) l, Dict.get (gc_n st) l).

(** Two accumulators agree on every lineage. *)
Definition acc_equiv (a b : acc) : Prop := forall l, view a l = view b l.

(** Two runs both raise, or both finish with accumulators that agree on
    every lineage. *)
Definition res_equiv (x y : result acc) : Prop :=
  match x, y with
  | Ok a, Ok b => acc_equiv a b
  | Raise _, Raise _ => True
  | _, _ => False
  end.

(** Accumulators the Stream Aggregator can produce: the empty one, and
    whatever a pass over a read-stream file leaves. *)
Inductive reachable : acc -> Prop :=
| reach_empty : reachable empty_acc
| reach_pass lines r2t t2l fk st st' :
    reachable st -> process_fastq lines r2t t2l fk st = Ok st' -> reachable st'.

(** The accumulator invariant, per lineage key of [counts]. *)
Definition acc_inv (st : acc) : Prop :=
  forall l c, Dict.get (counts st) l = Some c ->
  ((0 <= total c /\ 0 <= mapped c /\ 0 <= unmapped c) /\
   total c = mapped c + unmapped c /\
   Dict.get (gc_n st) l = Some (total c) /\
   1 <= total c)%Z.

End Agg.

(* ------------------------------------------------------------------ *)
(** ** Attrition Table Writer ([write_attrition_csv]) *)

Module Writer.
Import Py Reads GC Agg.

(** One step of a stable insertion sort on [kv[1]["total"]], descending:
    [sorted(counts.items(), key=..., reverse=True)] keeps equal keys in
    their original order. *)
Fixpoint insert_desc (x : string * counts_t) (l : list (string * counts_t))
  : list (string * counts_t) :=
  match l with
  | [] => [x]
  | y :: l' =>
      if Z.ltb (total (snd y)) (total (snd x)) then x :: y :: l'
      else y :: insert_desc x l'
  end.

Definition sort_desc (items : list (string * counts_t)) : list (string * counts_t) :=
  fold_left (fun sorted x => insert_desc x sorted) items [].

(** A data row of the table. *)
Record out_row := mk_out {
  o_lineage : string;
  o_total : Z;
  o_mapped_prop : Qc;
  o_unmapped_prop : Qc;
  o_avg_gc : Qc
}.

(** Python's [/]: a zero divisor raises. *)
Definition py_div (a b : Qc) : result Qc :=
  if Qc_eq_dec b 0 then Raise ZeroDivisionError else Ok (a / b).

Definition emit_row (st : acc) (lineage : string) (c : counts_t) : result out_row :=
  let n := Dict.get_default 0%Z (gc_n st) lineage in
  let avg_gc := if Z.eqb n 0 then 0 else Dict.get_default 0 (gc_sum st) lineage / Z2Qc n in
  let! mp := py_div (Z2Qc (mapped c)) (Z2Qc (total c)) in
  let! up := py_div (Z2Qc (unmapped c)) (Z2Qc (total c)) in
  Ok (mk_out lineage (total c) mp up avg_gc).

Fixpoint write_rows (st : acc) (min_reads : Z) (items : list (string * counts_t))
  : result (list out_row) :=
  match items with
  | [] => Ok []
  | (lineage, c) :: rest =>
      if Z.ltb (total c) min_reads then write_rows st min_reads rest
      else
        let! row := emit_row st lineage c in
        let! rows := write_rows st min_reads rest in
        Ok (row :: rows)
  end.

(** The data rows [write_attrition_csv] writes after the header row. *)
Definition attrition_rows (st : acc) (min_reads : Z) : result (list out_row) :=
  write_rows st min_reads (sort_desc (counts st)).

Definition write_attrition_csv (report kraken mapped_fastq unmapped_fastq : list string)
    (classified_only : bool) (min_reads : Z) : result (list out_row) :=
  let taxid_to_lineage := Lineage.parse_report_build_label_map report in
  let! read_to_taxid := load_kraken_read_map kraken classified_only in
  let! st1 := process_fastq mapped_fastq read_to_taxid taxid_to_lineage Mapped empty_acc in
  let! st2 := process_fastq unmapped_fastq read_to_taxid taxid_to_lineage Unmapped st1 in
  attrition_rows st2 min_reads.

End Writer.

(* ------------------------------------------------------------------ *)
(** ** Reference Cache ([bins_cache_key], [build_or_get_binned_reference]) *)

Module Cache.
Import Py.

(** An entry of the fragment directory as [Path.glob("*")] lists it. *)
Record entry := mk_entry {
  ename : string;       (* [p.name] *)
  is_file : bool;       (* [p.is_file()] *)
  size : Z;             (* [st.st_size] *)
  mtime : Q;            (* [st.st_mtime], a float of seconds *)
  bytes : string        (* the file's content *)
}.

(** [int(x)] of a float: truncation toward zero. *)
Definition py_int (q : Q) : Z := Z.quot (Qnum q) (Zpos (Qden q)).

(** Order of paths of one directory: code-point order of their names. *)
Definition name_le (a b : entry) : bool :=
  match String.compare (ename a) (ename b) with Gt => false | _ => true end.

Fixpoint insert_by_name (x : entry) (l : list entry) : list entry :=
  match l with
  | [] => [x]
  | y :: l' => if name_le x y then x :: y :: l' else y :: insert_by_name x l'
  end.

(** [sorted(...)] *)
Definition sort_by_name (l : list entry) : list entry :=
  fold_left (fun s x => insert_by_name x s) l [].

(** What [h.update] receives for one regular file: name, size, whole-second
    mtime, each as its decimal text. *)
Definition entry_feed (e : entry) : string :=
  ename e ++ str_int (size e) ++ str_int (py_int (mtime e)).

(** The byte stream fed to the cumulative digest; [h.update(a); h.update(b)]
    digests the concatenation [a ++ b]. *)
Definition digest_input (dir : list entry) : string :=
  fold_right String.append EmptyString
    (map entry_feed (filter is_file (sort_by_name dir))).

(** [fnmatch(name, "*.fa*")]: the name contains ".fa". *)
Fixpoint contains (p s : string) : bool :=
  String.prefix p s ||
  match s with
  | EmptyString => false
  | String _ r => contains p r
  end.

Definition matches_fa (e : entry) : bool := contains ".fa" (ename e).

(** An artifact file of the cache directory; [written] stamps its last write. *)
Record artifact := mk_artifact { a_content : string; written : Z }.

Record cache_dir := mk_cache { artifacts : Dict.dict artifact; clock : Z }.

(** Text-mode reading and writing, [open(bf)] and [open(ref, "w")], with
    the UTF-8 locale encoding and the POSIX line separator.  Reading
    decodes strictly (a byte sequence that is not well-formed UTF-8 raises
    [UnicodeDecodeError]) and applies universal newlines ("\r\n" and a
    lone "\r" become "\n"); writing encodes back to UTF-8 and writes "\n"
    as is.  Text is kept as its UTF-8 bytes: a CR or LF byte never occurs
    inside a multi-byte sequence, so the newline translation can be done
    on the bytes. *)
Definition CR : ascii := ascii_of_nat 13.

Definition in_range (lo hi : nat) (c : ascii) : bool :=
  Nat.leb lo (nat_of_ascii c) && Nat.leb (nat_of_ascii c) hi.

(** Well-formed UTF-8 (the Unicode table of well-formed byte sequences,
    which Python's strict decoder follows: no overlong forms, no
    surrogates, nothing above U+10FFFF). *)
Fixpoint utf8_valid (s : string) : bool :=
  match s with
  | EmptyString => true
  | String c r =>
      let b := nat_of_ascii c in
      if Nat.leb b 127 then utf8_valid r
      else if in_range 194 223 c then
        match r with
        | String c1 r1 => in_range 128 191 c1 && utf8_valid r1
        | EmptyString => false
        end
      else if in_range 224 239 c then
        match r with
        | String c1 (String c2 r2) =>
            (if Nat.eqb b 224 then in_range 160 191 c1
             else if Nat.eqb b 237 then in_range 128 159 c1
             else in_range 128 191 c1) &&
            in_range 128 191 c2 && utf8_valid r2
        | _ => false
        end
      else if in_range 240 244 c then
        match r with
        | String c1 (String c2 (String c3 r3)) =>
            (if Nat.eqb b 240 then in_range 144 191 c1
             else if Nat.eqb b 244 then in_range 128 143 c1
             else in_range 128 191 c1) &&
            in_range 128 191 c2 && in_range 128 191 c3 && utf8_valid r3
        | _ => false
        end
      else false
  end.

(** Universal newlines on reading. *)
Fixpoint universal_newlines (s : string) : string :=
  match s with
  | EmptyString => EmptyString
  | String c r =>
      if Ascii.eqb c CR then
        match r with
        | String d r' =>
            if Ascii.eqb d NL then String NL (universal_newlines r')
            else String NL (universal_newlines r)
        | EmptyString => String NL EmptyString
        end
      else String c (universal_newlines r)
  end.

(** What a text-mode read of a file's bytes returns, as the bytes the
    text-mode writer puts back. *)
Definition text_read (b : string) : result string :=
  if utf8_valid b then Ok (universal_newlines b) else Raise UnicodeDecodeError.

Section WithDigest.

(** [hashlib.sha256(...).hexdigest()[:16]] of a byte stream. *)
Variable hex16 : string -> string.
(** What [open(bf)] reads from an entry as raw bytes, or the OS error it
    raises: a readable regular file reads its content; what other entries
    give depends on the entry (a directory raises [IsADirectoryError], a
    dangling link [FileNotFoundError], an unreadable file
    [PermissionError], a link to a character device reads the device).
    An open that never returns (a FIFO without a writer) is outside this
    model. *)
Variable os_read : entry -> result string.
(** The part of a failing entry's text that [shutil.copyfileobj] has
    written to the artifact when the error surfaces; it depends on the
    read and write buffer sizes. *)
Variable partial : entry -> string.

Definition bins_cache_key (dir : list entry) : string := hex16 (digest_input dir).

Definition artifact_name (dir : list entry) : string :=
  "binned_" ++ bins_cache_key dir ++ ".fasta".

(** [with open(bf) as f: shutil.copyfileobj(f, out)] for one entry. *)
Definition read_entry (e : entry) : result string :=
  let! b := os_read e in text_read b.

(** The copy loop: the text written to [out], and how the loop ends. *)
Fixpoint copy_all (es : list entry) : string * result unit :=
  match es with
  | [] => (EmptyString, Ok tt)
  | e :: es' =>
      match read_entry e with
      | Ok txt => let (rest, r) := copy_all es' in (txt ++ rest, r)
      | Raise err => (partial e, Raise err)
      end
  end.

(** [open(ref, "w")] creates the artifact before the copy loop runs, and
    the [with] block closes it (flushing what was written) also when the
    loop raises: a failed build leaves a truncated artifact behind. *)
Definition build_or_get_binned_reference (dir : list entry) (cd : cache_dir)
  : result string * cache_dir :=
  let ref := artifact_name dir in
  match Dict.get (artifacts cd) ref with
  | Some _ => (Ok ref, cd)
  | None =>
      let (data, r) := copy_all (sort_by_name (filter matches_fa dir)) in
      let cd' := mk_cache (Dict.set (artifacts cd) ref (mk_artifact data (clock cd)))
                          (clock cd + 1) in
      match r with
      | Ok _ => (Ok ref, cd')
      | Raise err => (Raise err, cd')
      end
  end.

End WithDigest.

End Cache.

(* ------------------------------------------------------------------ *)
(** ** Shell quoting and the commands of [map_and_separate] *)

Module Shell.
Import Py.

Definition SQ : ascii := "'"%char.
Definition DQ : ascii := ascii_of_nat 34.

(** [s.replace(old, new)] for a one-character [old]. *)
Fixpoint replace_char (old : ascii) (new s : string) : string :=
  match s with
  | EmptyString => EmptyString
  | String c r => if Ascii.eqb c old then new ++ replace_char old new r
                  else String c (replace_char old new r)
  end.

(** The replacement text of [shlex_quote]: quote, double quote, quote,
    double quote, quote. *)
Definition quote_escape : string :=
  String SQ (String DQ (String SQ (String DQ (String SQ EmptyString)))).

(** [shlex_quote(s)] *)
Definition shlex_quote (s : string) : string :=
  String SQ (replace_char SQ quote_escape s ++ String SQ EmptyString).

(** The [bash -lc] script of the alignment step: the two concatenated
    f-strings of [map_and_separate]; [threads] is an [int], each path is
    [str] of a [Path]. *)
Definition bwa_pipeline_cmd (threads : Z) (reference r1 r2 bam : string) : string :=
  "bwa mem -t " ++ str_int threads ++ " " ++ shlex_quote reference ++ " " ++
  shlex_quote r1 ++ " " ++ shlex_quote r2 ++ " " ++
  "| samtools view -@ " ++ str_int threads ++ " -bS - > " ++ shlex_quote bam.

(** The [bash -lc] script of one [samtools fastq] step. *)
Definition fastq_split_cmd (threads : Z) (out1 out2 name_bam : string) : string :=
  "samtools fastq -@ " ++ str_int threads ++ " -n " ++
  "-1 " ++ shlex_quote out1 ++ " " ++
  "-2 " ++ shlex_quote out2 ++ " " ++
  "-0 /dev/null -s /dev/null " ++
  shlex_quote name_bam.

Section Runs.

(** [str(p / name)] for the [Path] whose [str] is [p]. *)
Variable path_join : string -> string -> string.

(** The argument vectors [map_and_separate] passes to [run], in order;
    [bwt_exists] is [Path(str(reference) + ".bwt").exists()]. *)
Definition map_and_separate_runs (bwt_exists : bool) (reference r1 r2 outdir : string)
    (threads : Z) : list (list string) :=
  let bam := path_join outdir "aln.bam" in
  let sorted_bam := path_join outdir "aln.sorted.bam" in
  let mapped := path_join outdir "mapped.bam" in
  let unmapped := path_join outdir "unmapped.bam" in
  let mapped_name := path_join outdir "mapped.name.bam" in
  let unmapped_name := path_join outdir "unmapped.name.bam" in
  app (if bwt_exists then [] else [["bwa"; "index"; reference]])
  [ ["bash"; "-lc"; bwa_pipeline_cmd threads reference r1 r2 bam];
    ["samtools"; "sort"; "-@"; str_int threads; bam; "-o"; sorted_bam];
    ["samtools"; "view"; "-b"; "-F"; "12"; sorted_bam; "-o"; mapped];
    ["samtools"; "view"; "-b"; "-f"; "12"; sorted_bam; "-o"; unmapped];
    ["samtools"; "sort"; "-@"; str_int threads; "-n"; mapped; "-o"; mapped_name];
    ["samtools"; "sort"; "-@"; str_int threads; "-n"; unmapped; "-o"; unmapped_name];
    ["bash"; "-lc"; fastq_split_cmd threads (path_join outdir "mapped_R1.fq.gz")
                      (path_join outdir "mapped_R2.fq.gz") mapped_name];
    ["bash"; "-lc"; fastq_split_cmd threads (path_join outdir "unmapped_R1.fq.gz")
                      (path_join outdir "unmapped_R2.fq.gz") unmapped_name] ].

End Runs.

End Shell.

(** ** Reference: how a POSIX shell splits a script into tokens

    Token recognition of the POSIX shell (XCU 2.3) for the characters the
    scripts above use: blanks separate words; single quotes keep every
    character up to the next single quote; double quotes keep every
    character up to the next double quote, where [$], [`] and the
    backslash are not covered; unquoted, a word is made of letters,
    digits and [-_./@=:,+%]; [|], [>], [<], [;], [&], [(], [)] standing
    alone between blanks are one-character operators. Anything else
    ([$], globs, [~], [#], newlines, ...) lies outside this lexer: [None]. *)

Module ShLex.
Import Py.

Inductive token := Word (w : string) | Op (o : string).

Inductive lmode := Unq | InSQ | InDQ.

Definition in_range (lo hi : nat) (c : ascii) : bool :=
  Nat.leb lo (nat_of_ascii c) && Nat.leb (nat_of_ascii c) hi.

Definition is_blank (c : ascii) : bool := Ascii.eqb c " "%char || Ascii.eqb c TAB.

Definition is_op (c : ascii) : bool :=
  existsb (Ascii.eqb c) ["|"; ">"; "<"; ";"; "&"; "("; ")"]%char.

Definition is_word_char (c : ascii) : bool :=
  in_range 48 57 c || in_range 65 90 c || in_range 97 122 c ||
  existsb (Ascii.eqb c) ["-"; "_"; "."; "/"; "@"; "="; ":"; ","; "+"; "%"]%char.

Definition dq_special (c : ascii) : bool :=
  Ascii.eqb c "$"%char || Ascii.eqb c "`"%char || Ascii.eqb c "\"%char.

Definition cur_str (cur : option string) : string :=
  match cur with Some w => w | None => EmptyString end.

Definition snoc (cur : option string) (c : ascii) : option string :=
  Some (cur_str cur ++ String c EmptyString).

Definition emit (cur : option string) (ts : list token) : list token :=
  match cur with Some w => Word w :: ts | None => ts end.

Definition next_is_op (s : string) : bool :=
  match s with String c _ => is_op c | EmptyString => false end.

(** [cur] is the word being read, [None] between words. *)
Fixpoint lex (m : lmode) (cur : option string) (s : string) : option (list token) :=
  match s with
  | EmptyString => match m with Unq => Some (emit cur []) | _ => None end
  | String c r =>
      match m with
      | InSQ => if Ascii.eqb c Shell.SQ then lex Unq cur r else lex InSQ (snoc cur c) r
      | InDQ =>
          if Ascii.eqb c Shell.DQ then lex Unq cur r
          else if dq_special c then None
          else lex InDQ (snoc cur c) r
      | Unq =>
          if is_blank c then option_map (emit cur) (lex Unq None r)
          else if Ascii.eqb c Shell.SQ then lex InSQ (Some (cur_str cur)) r
          else if Ascii.eqb c Shell.DQ then lex InDQ (Some (cur_str cur)) r
          else if is_op c then
            match cur with
            | Some _ => None
            | None =>
                if next_is_op r then None
                else option_map (fun ts => Op (String c EmptyString) :: ts) (lex Unq None r)
            end
          else if is_word_char c then lex Unq (snoc cur c) r
          else None
      end
  end.

Definition sh_tokens (script : string) : option (list token) := lex Unq None script.

End ShLex.

(* ------------------------------------------------------------------ *)
(** ** Executable checks on small inputs *)

Module PipelineTests.
Import Py Reads GC Agg Writer LineageTests.

Definition fq (id seq : string) : list string :=
  [String "@"%char (id ++ String NL EmptyString); seq ++ String NL EmptyString;
   String "+"%char (String NL EmptyString); "IIII" ++ String NL EmptyString].

Definition report2 : list string :=
  [ tab_line ["1"; "1"; "1"; "D"; "2"; "Bac"]; tab_line ["1"; "1"; "1"; "K"; "3"; "Kk"];
    tab_line ["1"; "1"; "1"; "P"; "4"; "Pp"]; tab_line ["1"; "1"; "1"; "C"; "5"; "Cc"];
    tab_line ["1"; "1"; "1"; "O"; "6"; "Oo"]; tab_line ["1"; "1"; "1"; "F"; "7"; "Ff"];
    tab_line ["1"; "1"; "1"; "G"; "10"; "A"]; tab_line ["1"; "1"; "1"; "G"; "20"; "B"] ].

Definition kraken2 : list string :=
  [ tab_line ["C"; "r1 x"; "10"]; tab_line ["C"; "r2"; "10"]; tab_line ["C"; "r3"; "10"];
    tab_line ["C"; "r4"; "10"]; tab_line ["C"; "r5"; "20"]; tab_line ["U"; "r6"; "0"] ].

Definition mapped2 : list string :=
  fq "r1" "GGGGGAAAAA" ++ fq "r2" "GGGGGGAAAA" ++ fq "r3" "GGGGGGGAAA" ++ fq "r5" "GGGG"
  ++ fq "r6" "AAAA".
Definition unmapped2 : list string := fq "r4" "GGGGAAAAAA".

Definition lineage_A := "d__Bac;k__Kk;p__Pp;c__Cc;o__Oo;f__Ff;g__A".
Definition lineage_B := "d__Bac;k__Kk;p__Pp;c__Cc;o__Oo;f__Ff;g__B".

(** The round trip of the spec: rows A,4,0.75,0.25,0.55 and B,1,1.0,0.0,1.0. *)
Example round_trip :
  write_attrition_csv report2 kraken2 mapped2 unmapped2 false 0 =
  Ok [mk_out lineage_A 4 (Q2Qc (3#4)) (Q2Qc (1#4)) (Q2Qc (55#100));
      mk_out lineage_B 1 1 0 1].
Proof. vm_compute. f_equal; f_equal; f_equal; apply Qc_is_canon; reflexivity. Qed.

Example threshold_two :
  match write_attrition_csv report2 kraken2 mapped2 unmapped2 false 2 with
  | Ok rows => map o_lineage rows = [lineage_A]
  | Raise _ => False
  end.
Proof. vm_compute. reflexivity. Qed.

Example normalize_examples :
  normalize_read_id "@read1/1 extra" = Ok "read1/1" /\ normalize_read_id "read1/1" = Ok "read1/1".
Proof. split; reflexivity. Qed.

End PipelineTests.

(* ------------------------------------------------------------------ *)
(** ** Statements of the specification, written from its words *)

Module SpecWords.
Import Py.

(** Empty or whitespace-only. *)
Fixpoint blank (s : string) : bool :=
  match s with
  | EmptyString => true
  | String c r => is_space c && blank r
  end.

(** The input with one leading '@' removed. *)
Definition strip_leading_at (s : string) : string :=
  match s with
  | String c r => if Ascii.eqb c "@"%char then r else s
  | EmptyString => EmptyString
  end.



End SpecWords.

(* ================================================================== *)
(** * Proofs *)

Module DictFacts.
Import Dict.

Lemma get_set_eq {V} (d : dict V) k v : get (set d k v) k = Some v.
Proof.
  induction d as [|[k' v'] d IH]; simpl.
  - now rewrite String.eqb_refl.
  - destruct (String.eqb k k') eqn:E; simpl.
    + apply String.eqb_eq in E; subst. now rewrite String.eqb_refl.
    + now rewrite E.
Qed.

Lemma get_set_neq {V} (d : dict V) k k0 v :
  k0 <> k -> get (set d k v) k0 = get d k0.
Proof.
  intros Hne. induction d as [|[k' v'] d IH]; simpl.
  - apply String.eqb_neq in Hne. now rewrite Hne.
  - destruct (String.eqb k k') eqn:E; simpl.
    + apply String.eqb_eq in E; subst.
      apply String.eqb_neq in Hne. now rewrite Hne.
    + now rewrite IH.
Qed.

Lemma get_set {V} (d : dict V) k k0 v :
  get (set d k v) k0 = if String.eqb k0 k then Some v else get d k0.
Proof.
  destruct (String.eqb k0 k) eqn:E.
  - apply String.eqb_eq in E; subst. apply get_set_eq.
  - apply String.eqb_neq in E. now apply get_set_neq.
Qed.

End DictFacts.

Module LineageProofs.
Import Py Lineage LineageSpec DictFacts.

Lemma count_app c a b : count c (a ++ b) = (count c a + count c b)%nat.
Proof. induction a as [|d a IH]; simpl; [reflexivity | rewrite IH; lia]. Qed.

Lemma split_plain x : count SEMI x = 0%nat -> split SEMI x = [x].
Proof.
  unfold split. induction x as [|c x IH]; cbn [split_by count]; intros H; [reflexivity|].
  rewrite Ascii.eqb_sym in H.
  destruct (Ascii.eqb c SEMI); [simpl in H; discriminate|].
  rewrite IH by exact H. reflexivity.
Qed.

Lemma split_semi_app x rest :
  count SEMI x = 0%nat -> split SEMI (x ++ String SEMI rest) = x :: split SEMI rest.
Proof.
  unfold split. induction x as [|c x IH]; cbn [split_by count append]; intros H.
  - reflexivity.
  - rewrite Ascii.eqb_sym in H.
    destruct (Ascii.eqb c SEMI); [simpl in H; discriminate|].
    rewrite IH by exact H. reflexivity.
Qed.

Lemma split_join xs :
  xs <> [] -> Forall (fun x => count SEMI x = 0%nat) xs -> split SEMI (join ";" xs) = xs.
Proof.
  induction xs as [|x xs IH]; intros Hne Hall; [congruence|].
  inversion Hall as [|? ? Hx Hxs]; subst.
  destruct xs as [|y ys].
  - apply split_plain, Hx.
  - change (join ";" (x :: y :: ys)) with (x ++ String SEMI (join ";" (y :: ys))).
    rewrite split_semi_app by exact Hx. rewrite IH; [reflexivity | discriminate | exact Hxs].
Qed.

Lemma prefix_app p nm : String.prefix p (p ++ nm) = true.
Proof.
  induction p as [|c p IH]; simpl; [destruct nm; reflexivity|].
  destruct (ascii_dec c c); [exact IH | congruence].
Qed.

Lemma report_fold lines st :
  fold_left report_step lines st = fold_left row_step (report_rows lines) st.
Proof.
  revert st. induction lines as [|l lines IH]; intros st; simpl; [reflexivity|].
  unfold report_step at 2. destruct (parse_row l); simpl; apply IH.
Qed.

Definition pfx (a : string) : string :=
  match rank_prefix a with Some p => p | None => EmptyString end.

Definition ladder_wf (ladder : Dict.dict string) : Prop :=
  forall a s, Dict.get ladder a = Some s ->
  exists p nm, rank_prefix a = Some p /\ s = p ++ nm /\ count SEMI nm = 0%nat.

Definition new_ladder (st : report_state) (r : row) : Dict.dict string :=
  match rank_prefix (rank r) with
  | Some pref => Dict.set (lineage_by_rank st) (rank r) (pref ++ name r)
  | None => lineage_by_rank st
  end.

Lemma row_step_ladder st r : lineage_by_rank (row_step st r) = new_ladder st r.
Proof. unfold row_step. destruct (_ || _); reflexivity. Qed.

Lemma row_step_map st r :
  taxid_to_lineage (row_step st r) =
  if is_genus_or_species (rank r)
  then Dict.set (taxid_to_lineage st) (taxid r)
         (join ";" (present (new_ladder st r) (ordered_ranks (rank r))))
  else taxid_to_lineage st.
Proof. unfold row_step, is_genus_or_species. destruct (_ || _); reflexivity. Qed.

Lemma new_ladder_wf st r :
  ladder_wf (lineage_by_rank st) -> count SEMI (name r) = 0%nat ->
  ladder_wf (new_ladder st r).
Proof.
  intros Hwf Hn a s. unfold new_ladder.
  destruct (rank_prefix (rank r)) as [pref|] eqn:Hp; [|apply Hwf].
  rewrite get_set. destruct (String.eqb a (rank r)) eqn:E; [|apply Hwf].
  apply String.eqb_eq in E; subst. intros [= <-]. eauto.
Qed.

Lemma new_ladder_keeps st r a :
  Dict.get (lineage_by_rank st) a <> None -> Dict.get (new_ladder st r) a <> None.
Proof.
  unfold new_ladder. destruct (rank_prefix (rank r)); [|auto].
  rewrite get_set. destruct (String.eqb a (rank r)); congruence.
Qed.

Lemma new_ladder_own st r :
  rank_prefix (rank r) <> None -> Dict.get (new_ladder st r) (rank r) <> None.
Proof.
  unfold new_ladder. destruct (rank_prefix (rank r)); [|congruence].
  rewrite get_set_eq. congruence.
Qed.

Lemma fold_ladder pre st :
  ladder_wf (lineage_by_rank st) -> names_plain pre = true ->
  ladder_wf (lineage_by_rank (fold_left row_step pre st)) /\
  forall a, (In a (map rank pre) /\ rank_prefix a <> None) \/
            Dict.get (lineage_by_rank st) a <> None ->
  Dict.get (lineage_by_rank (fold_left row_step pre st)) a <> None.
Proof.
  revert st. induction pre as [|r pre IH]; intros st Hwf Hn; simpl.
  - split; [exact Hwf|]. intros a [[[] _]|H]; exact H.
  - simpl in Hn. apply andb_true_iff in Hn as [Hr Hn]. apply Nat.eqb_eq in Hr.
    destruct (IH (row_step st r)) as [Hwf' Hpres];
      [rewrite row_step_ladder; now apply new_ladder_wf | exact Hn |].
    split; [exact Hwf'|]. intros a Ha. apply Hpres. rewrite row_step_ladder.
    destruct Ha as [[[Ha|Ha] Hp]|Ha].
    + subst. right. now apply new_ladder_own.
    + left. now split.
    + right. now apply new_ladder_keeps.
Qed.

Lemma fold_keeps_taxid post st t :
  (forall r', In r' post -> taxid r' <> t) ->
  Dict.get (taxid_to_lineage (fold_left row_step post st)) t =
  Dict.get (taxid_to_lineage st) t.
Proof.
  revert st. induction post as [|r post IH]; intros st H; simpl; [reflexivity|].
  rewrite IH by (intros; apply H; now right).
  rewrite row_step_map. destruct (is_genus_or_species (rank r)); [|reflexivity].
  apply get_set_neq. intros E. apply (H r); [now left | congruence].
Qed.

Lemma distinct_app xs ys : distinct (xs ++ ys) = true -> distinct ys = true.
Proof.
  induction xs as [|x xs IH]; simpl; [auto|].
  intros H. apply andb_true_iff in H as [_ H]. auto.
Qed.

Lemma distinct_head x ys : distinct (x :: ys) = true -> ~ In x ys.
Proof.
  simpl. intros H Hin. apply andb_true_iff in H as [H _].
  apply negb_true_iff, Bool.not_true_iff_false in H. apply H.
  apply existsb_exists. exists x. split; [exact Hin|]. apply String.eqb_refl.
Qed.

Lemma top_down_at seen pre r post :
  top_down_from seen (app pre (r :: post)) = true ->
  is_genus_or_species (rank r) = true ->
  forall a, In a (ordered_ranks (rank r)) ->
  a = rank r \/ In a (map rank pre) \/ In a seen.
Proof.
  revert seen. induction pre as [|r0 pre IH]; intros seen H Hgs a Ha;
    cbn [app top_down_from map In] in *.
  - rewrite Hgs in H. apply andb_true_iff in H as [H _].
    rewrite forallb_forall in H. specialize (H a Ha).
    apply orb_true_iff in H as [H|H].
    + left. now apply String.eqb_eq.
    + right. apply existsb_exists in H as [b [Hb E]].
      apply String.eqb_eq in E. subst. auto.
  - apply andb_true_iff in H as [_ H].
    destruct (IH _ H Hgs a Ha) as [E|[E|[E|E]]]; auto.
Qed.

Lemma ordered_have_prefix rk a : In a (ordered_ranks rk) -> rank_prefix a <> None.
Proof.
  unfold ordered_ranks. destruct (String.eqb rk "S"); simpl;
    intros H; repeat destruct H as [<-|H]; try discriminate; contradiction.
Qed.

Lemma count_pfx a : count SEMI (pfx a) = 0%nat.
Proof.
  unfold pfx, rank_prefix. repeat match goal with |- context [String.eqb ?x ?y] =>
    destruct (String.eqb x y) end; reflexivity.
Qed.

Lemma present_full ladder rs :
  ladder_wf ladder -> (forall a, In a rs -> Dict.get ladder a <> None) ->
  Forall2 (fun p s => String.prefix p s = true /\ count SEMI s = 0%nat)
          (map pfx rs) (present ladder rs).
Proof.
  intros Hwf. induction rs as [|a rs IH]; intros Hall; simpl; [constructor|].
  destruct (Dict.get ladder a) as [s|] eqn:Hg.
  - constructor; [|apply IH; intros; apply Hall; now right].
    destruct (Hwf a s Hg) as [p [nm [Hp [-> Hnm]]]].
    unfold pfx. rewrite Hp. split; [apply prefix_app|].
    rewrite count_app, Hnm. pose proof (count_pfx a) as Hc. unfold pfx in Hc.
    rewrite Hp in Hc. lia.
  - exfalso. apply (Hall a); [now left | exact Hg].
Qed.

Lemma map_pfx_ordered rk : map pfx (ordered_ranks rk) = expected_prefixes rk.
Proof. unfold ordered_ranks, expected_prefixes. destruct (String.eqb rk "S"); reflexivity. Qed.

Lemma expected_prefixes_length rk : List.length (expected_prefixes rk) = lineage_depth rk.
Proof. unfold expected_prefixes, lineage_depth. destruct (String.eqb rk "S"); reflexivity. Qed.

End LineageProofs.

Module LineageClaims.
Import Py Lineage LineageSpec LineageProofs DictFacts.

Lemma Forall2_snd_count (xs ys : list string) :
  Forall2 (fun p s => String.prefix p s = true /\ count SEMI s = 0%nat) xs ys ->
  Forall (fun s => count SEMI s = 0%nat) ys.
Proof. induction 1 as [|? ? ? ? [_ H]]; constructor; auto. Qed.

(** C1. In a rank report given in top-down order (every genus row preceded
    by rows of ranks domain .. family, every species row also by a genus
    row), with distinct taxon ids and display names without ';', every
    genus or species row is recorded by [parse_report_build_label_map]
    under its taxon id with a lineage whose ';'-separated segments are 7
    (genus) or 8 (species) many, the i-th beginning with the i-th prefix of
    d__ k__ p__ c__ o__ f__ g__ s__. *)
Theorem genus_species_lineage_shape (lines : list string)
  (Horder : top_down (report_rows lines) = true)
  (Hids : distinct (map taxid (report_rows lines)) = true)
  (Hnames : names_plain (report_rows lines) = true) :
  forall r, In r (report_rows lines) -> is_genus_or_species (rank r) = true ->
  exists lin,
    Dict.get (parse_report_build_label_map lines) (taxid r) = Some lin /\
    List.length (split SEMI lin) = lineage_depth (rank r) /\
    Forall2 (fun pref seg => String.prefix pref seg = true)
            (expected_prefixes (rank r)) (split SEMI lin).
Proof.
  intros r Hin Hgs.
  unfold parse_report_build_label_map. rewrite report_fold.
  apply in_split in Hin as [pre [post Hrows]]. rewrite Hrows in *.
  rewrite fold_left_app. cbn [fold_left].
  set (st1 := fold_left row_step pre (mk_rstate Dict.empty Dict.empty)).
  unfold names_plain in Hnames. rewrite forallb_app in Hnames.
  apply andb_true_iff in Hnames as [Hnpre Hnr].
  cbn [forallb] in Hnr. apply andb_true_iff in Hnr as [Hnr _].
  apply Nat.eqb_eq in Hnr.
  destruct (fold_ladder pre (mk_rstate Dict.empty Dict.empty)) as [Hwf1 Hpres1];
    [intros a s H; discriminate H | exact Hnpre |].
  rewrite fold_keeps_taxid.
  2:{ rewrite map_app in Hids. apply distinct_app in Hids.
      apply distinct_head in Hids. intros r' Hr' E. apply Hids.
      rewrite <- E. now apply in_map. }
  rewrite row_step_map, Hgs, get_set_eq. eexists; split; [reflexivity|].
  assert (Hall : forall a, In a (ordered_ranks (rank r)) ->
                 Dict.get (new_ladder st1 r) a <> None).
  { intros a Ha.
    destruct (top_down_at [] pre r post Horder Hgs a Ha) as [E|[E|E]].
    - subst a. apply new_ladder_own. now apply (ordered_have_prefix (rank r)).
    - apply new_ladder_keeps, Hpres1. left. split; [exact E|].
      now apply (ordered_have_prefix (rank r)).
    - destruct E. }
  pose proof (present_full (new_ladder st1 r) (ordered_ranks (rank r))
                (new_ladder_wf st1 r Hwf1 Hnr) Hall) as HF.
  rewrite split_join.
  - rewrite map_pfx_ordered in HF. split.
    + rewrite <- expected_prefixes_length. symmetry. eapply Forall2_length, HF.
    + eapply Forall2_impl; [|exact HF]. intros ? ? [H _]. exact H.
  - intros E. apply Forall2_length in HF. rewrite E, length_map in HF.
    unfold ordered_ranks in HF. rewrite length_app in HF. simpl in HF. lia.
  - eapply Forall2_snd_count, HF.
Qed.

Lemma genus_species_lineage_shape_witness :
  exists lin,
    Dict.get (parse_report_build_label_map LineageTests.sample_report) "1423" = Some lin /\
    List.length (split SEMI lin) = 8%nat /\
    Forall2 (fun pref seg => String.prefix pref seg = true)
            ["d__"; "k__"; "p__"; "c__"; "o__"; "f__"; "g__"; "s__"] (split SEMI lin).
Proof.
  apply (genus_species_lineage_shape LineageTests.sample_report
           ltac:(vm_compute; reflexivity) ltac:(vm_compute; reflexivity)
           ltac:(vm_compute; reflexivity)
           (mk_row "S" "1423" "Bacillus subtilis")).
  - vm_compute. do 7 right. left. reflexivity.
  - vm_compute. reflexivity.
Defined.

End LineageClaims.

Module GCClaims.
Import Py GC SpecWords.







End GCClaims.

Module ReadsProofs.
Import Py Reads SpecWords DictFacts.

Lemma lstrip_blank s : blank s = true -> lstrip_by is_space s = EmptyString.
Proof.
  induction s as [|c s IH]; simpl; [reflexivity|].
  intros H. apply andb_true_iff in H as [-> H]. auto.
Qed.

Lemma rstrip_blank s : blank s = true -> rstrip_by is_space s = EmptyString.
Proof.
  induction s as [|c s IH]; simpl; [reflexivity|].
  intros H. apply andb_true_iff in H as [Hc H]. rewrite IH by exact H. now rewrite Hc.
Qed.

Lemma normalize_blank_raises s :
  blank (strip_leading_at s) = true -> normalize_read_id s = Raise IndexError.
Proof.
  unfold normalize_read_id, strip_leading_at, strip.
  destruct s as [|c r]; [reflexivity|].
  destruct (Ascii.eqb c "@"%char) eqn:Ec.
  - apply Ascii.eqb_eq in Ec. subst c. intros H.
    cbn [lstrip_by]. replace (is_space "@"%char) with false by reflexivity.
    cbn [rstrip_by]. rewrite rstrip_blank by exact H.
    replace (is_space "@"%char) with false by reflexivity. reflexivity.
  - intros H. rewrite lstrip_blank by exact H. reflexivity.
Qed.

Lemma fold_result_raise {S X} (f : S -> X -> result S) pre x post s e :
  (forall s', f s' x = Raise e) ->
  exists e', fold_result f (app pre (x :: post)) s = Raise e'.
Proof.
  revert s. induction pre as [|y pre IH]; intros s Hx; simpl.
  - rewrite Hx. exists e. reflexivity.
  - destruct (f s y) as [s1|e1]; cbn [bind].
    + now apply IH.
    + eauto.
Qed.

(** The domain of one dict is contained in the domain of another. *)
Definition dom_sub (m1 m2 : Dict.dict string) : Prop :=
  forall k, Dict.get m1 k <> None -> Dict.get m2 k <> None.

Lemma dom_sub_set m1 m2 k v1 v2 :
  dom_sub m1 m2 -> dom_sub (Dict.set m1 k v1) (Dict.set m2 k v2).
Proof.
  intros H k0. rewrite !get_set. destruct (String.eqb k0 k); [congruence | apply H].
Qed.

Lemma dom_sub_set_r m1 m2 k v :
  dom_sub m1 m2 -> dom_sub m1 (Dict.set m2 k v).
Proof.
  intros H k0 Hk. rewrite get_set. destruct (String.eqb k0 k); [congruence | auto].
Qed.

Lemma kraken_step_sub m1 m2 m2' line :
  dom_sub m1 m2 -> kraken_step false m2 line = Ok m2' ->
  exists m1', kraken_step true m1 line = Ok m1' /\ dom_sub m1' m2'.
Proof.
  intros Hs. unfold kraken_step.
  destruct (String.eqb (strip line) EmptyString); [intros [= <-]; eauto|].
  destruct (Nat.ltb _ 3); [intros [= <-]; eauto|].
  cbn [andb]. destruct (normalize_read_id _) as [rid|e]; simpl; [|discriminate].
  intros [= <-].
  destruct (negb (String.eqb _ "C")); simpl.
  - eexists; split; [reflexivity|]. now apply dom_sub_set_r.
  - eexists; split; [reflexivity|]. now apply dom_sub_set.
Qed.

Lemma load_sub lines m1 m2 m2' :
  dom_sub m1 m2 -> fold_result (kraken_step false) lines m2 = Ok m2' ->
  exists m1', fold_result (kraken_step true) lines m1 = Ok m1' /\ dom_sub m1' m2'.
Proof.
  revert m1 m2. induction lines as [|l lines IH]; intros m1 m2 Hs; simpl.
  - intros [= <-]. eauto.
  - destruct (kraken_step false m2 l) as [m2a|e] eqn:E2; simpl; [|discriminate].
    destruct (kraken_step_sub m1 m2 m2a l Hs E2) as [m1a [-> Ha]]. simpl.
    now apply IH.
Qed.

End ReadsProofs.

Module ReadsClaims.
Import Py Reads SpecWords ReadsProofs.

(** C9. Whenever the classification stream loads with [classified_only]
    disabled, it also loads with it enabled, and every read id of the
    enabled map is a read id of the disabled map. *)
Theorem classified_only_subset (lines : list string) (m_all : Dict.dict string)
  (Hall : load_kraken_read_map lines false = Ok m_all) :
  exists m_c, load_kraken_read_map lines true = Ok m_c /\
  forall k, Dict.get m_c k <> None -> Dict.get m_all k <> None.
Proof.
  apply (load_sub lines Dict.empty Dict.empty m_all); [|exact Hall].
  intros k H. exact H.
Qed.

Lemma classified_only_subset_witness :
  exists m_c,
    load_kraken_read_map PipelineTests.kraken2 true = Ok m_c /\
    forall k, Dict.get m_c k <> None ->
      Dict.get (Dict.set (Dict.set (Dict.set (Dict.set (Dict.set (Dict.set Dict.empty
        "r1" "10") "r2" "10") "r3" "10") "r4" "10") "r5" "20") "r6" "0") k <> None.
Proof.
  apply (classified_only_subset PipelineTests.kraken2). vm_compute. reflexivity.
Defined.

End ReadsClaims.

Module AggBasics.
Import Py Reads GC Agg.

Definition record_step (read_to_taxid taxid_to_lineage : Dict.dict string) (fk : file_key)
    (st : acc) (r : fq_record) : result acc :=
  ingest read_to_taxid taxid_to_lineage fk (hdr r) (sq r) st.

Lemma process_records recs tail r2t t2l fk st :
  process_fastq (app (flat_map record_lines recs) tail) r2t t2l fk st =
  let! st' := fold_result (record_step r2t t2l fk) recs st in
  process_fastq tail r2t t2l fk st'.
Proof.
  revert st. induction recs as [|r recs IH]; intros st; [reflexivity|].
  cbn [flat_map record_lines app process_fastq fold_result].
  change (ingest r2t t2l fk (hdr r) (sq r) st) with (record_step r2t t2l fk st r).
  destruct (record_step r2t t2l fk st r); cbn [bind].
  - apply IH.
  - reflexivity.
Qed.

Lemma process_short tail r2t t2l fk st :
  (List.length tail < 4)%nat -> process_fastq tail r2t t2l fk st = Ok st.
Proof.
  intros H. destruct tail as [|a [|b [|c [|d t]]]]; try reflexivity. simpl in H. lia.
Qed.

End AggBasics.

Module ReadIdClaims.
Import Py Reads Agg Writer SpecWords ReadsProofs AggBasics LineageTests.

Lemma kraken_step_blank_raises co m line :
  strip line <> EmptyString ->
  (3 <= List.length (split TAB (rstrip_nl line)))%nat ->
  (co = false \/ nth 0 (split TAB (rstrip_nl line)) EmptyString = "C") ->
  blank (strip_leading_at (nth 1 (split TAB (rstrip_nl line)) EmptyString)) = true ->
  kraken_step co m line = Raise IndexError.
Proof.
  intros Hs Hn Hco Hb. unfold kraken_step.
  destruct (String.eqb (strip line) EmptyString) eqn:E;
    [apply String.eqb_eq in E; contradiction|].
  destruct (Nat.ltb _ 3) eqn:L; [apply Nat.ltb_lt in L; lia|].
  replace (co && negb (String.eqb (nth 0 (split TAB (rstrip_nl line)) EmptyString) "C"))
    with false by (destruct Hco as [-> | ->]; [reflexivity | destruct co; reflexivity]).
  rewrite normalize_blank_raises by exact Hb. reflexivity.
Qed.

Lemma ingest_blank_raises r2t t2l fk h seq st :
  blank (strip_leading_at h) = true -> ingest r2t t2l fk h seq st = Raise IndexError.
Proof. intros Hb. unfold ingest. rewrite normalize_blank_raises by exact Hb. reflexivity. Qed.

Lemma process_blank_raises recs tail r2t t2l fk st r :
  In r recs -> blank (strip_leading_at (hdr r)) = true ->
  exists e, process_fastq (app (flat_map record_lines recs) tail) r2t t2l fk st = Raise e.
Proof.
  intros Hin Hb. apply in_split in Hin as [pre [post ->]].
  rewrite process_records.
  destruct (fold_result_raise (record_step r2t t2l fk) pre r post st IndexError)
    as [e He]; [intros s; apply ingest_blank_raises, Hb|].
  rewrite He. exists e. reflexivity.
Qed.

(** C10 (as stated). A classification row with three fields and a blank
    read-header field does not abort the run when [classified_only] is set
    and its status is not "C": the row is skipped before normalisation. *)
Lemma unclassified_blank_header_counterexample :
  (3 <= List.length (split TAB (rstrip_nl (tab_line ["U"; EmptyString; "0"]))))%nat /\
  blank (nth 1 (split TAB (rstrip_nl (tab_line ["U"; EmptyString; "0"]))) EmptyString) = true /\
  load_kraken_read_map [tab_line ["U"; EmptyString; "0"]] true = Ok Dict.empty.
Proof. split; [|split]; vm_compute; [lia | reflexivity | reflexivity]. Qed.

Lemma kraken_step_unclassified m line :
  nth 0 (split TAB (rstrip_nl line)) EmptyString <> "C" -> kraken_step true m line = Ok m.
Proof.
  intros Hs. unfold kraken_step.
  destruct (String.eqb (strip line) EmptyString); [reflexivity|].
  destruct (Nat.ltb _ 3); [reflexivity|].
  apply String.eqb_neq in Hs. rewrite Hs. reflexivity.
Qed.

Lemma fold_result_skip {S X} (f : S -> X -> result S) pre x post s :
  (forall s', f s' x = Ok s') ->
  fold_result f (app pre (x :: post)) s = fold_result f (app pre post) s.
Proof.
  intros Hx. revert s. induction pre as [|y pre IH]; intros s; cbn [app fold_result].
  - rewrite Hx. reflexivity.
  - destruct (f s y); cbn [bind]; [apply IH|reflexivity].
Qed.

(** C10 (amended). [normalize_read_id] raises on every input that is empty
    or whitespace-only once one leading '@' is removed. Consequently a
    classification row that is not whitespace-only, has at least 3 fields,
    a blank read-header field, and is not skipped by the status filter
    ([classified_only] off, or status "C") makes [load_kraken_read_map], and
    so the run, raise; and a complete 4-line record whose header line is
    whitespace-only, in the mapped or in the unmapped read-stream file,
    makes [process_fastq] and [write_attrition_csv] raise. With
    [classified_only] set, a row whose status column is not "C" is skipped
    before normalisation, whatever its read-header field: removing it
    from the file changes nothing, so it never aborts the load. *)
Theorem blank_read_id_aborts :
  (forall s, blank (strip_leading_at s) = true -> normalize_read_id s = Raise IndexError) /\
  (forall co pre line post,
     strip line <> EmptyString ->
     (3 <= List.length (split TAB (rstrip_nl line)))%nat ->
     (co = false \/ nth 0 (split TAB (rstrip_nl line)) EmptyString = "C") ->
     blank (nth 1 (split TAB (rstrip_nl line)) EmptyString) = true ->
     exists e, load_kraken_read_map (app pre (line :: post)) co = Raise e) /\
  (forall recs tail r2t t2l fk st r,
     In r recs -> blank (hdr r) = true ->
     exists e, process_fastq (app (flat_map record_lines recs) tail) r2t t2l fk st = Raise e) /\
  (forall report kraken recs tail unmapped_fastq co min_reads r,
     In r recs -> blank (hdr r) = true ->
     exists e, write_attrition_csv report kraken (app (flat_map record_lines recs) tail)
                 unmapped_fastq co min_reads = Raise e) /\
  (forall report kraken mapped_fastq recs tail co min_reads r,
     In r recs -> blank (hdr r) = true ->
     exists e, write_attrition_csv report kraken mapped_fastq
                 (app (flat_map record_lines recs) tail) co min_reads = Raise e) /\
  (forall pre line post,
     nth 0 (split TAB (rstrip_nl line)) EmptyString <> "C" ->
     load_kraken_read_map (app pre (line :: post)) true =
       load_kraken_read_map (app pre post) true).
Proof.
  assert (Hat : forall s, blank s = true -> strip_leading_at s = s).
  { intros [|c s] H; [reflexivity|]. simpl in H |- *.
    apply andb_true_iff in H as [Hc _].
    destruct (Ascii.eqb c "@"%char) eqn:E; [|reflexivity].
    apply Ascii.eqb_eq in E. subst c. discriminate Hc. }
  split; [exact normalize_blank_raises|].
  split.
  { intros co pre line post Hs Hn Hco Hb.
    apply (fold_result_raise (kraken_step co) pre line post Dict.empty IndexError).
    intros m. apply kraken_step_blank_raises; auto. now rewrite Hat. }
  split.
  { intros recs tail r2t t2l fk st r Hin Hb.
    apply (process_blank_raises recs tail r2t t2l fk st r Hin). now rewrite Hat. }
  split.
  { intros report kraken recs tail unm co mr r Hin Hb. unfold write_attrition_csv.
    destruct (load_kraken_read_map kraken co) as [r2t|e]; cbn [bind]; [|eauto].
    destruct (process_blank_raises recs tail r2t
                (Lineage.parse_report_build_label_map report) Mapped empty_acc r Hin)
      as [e He]; [now rewrite Hat|].
    rewrite He. exists e. reflexivity. }
  split.
  { intros report kraken mfq recs tail co mr r Hin Hb. unfold write_attrition_csv.
    destruct (load_kraken_read_map kraken co) as [r2t|e]; cbn [bind]; [|eauto].
    destruct (process_fastq mfq r2t _ Mapped empty_acc) as [st1|e]; cbn [bind]; [|eauto].
    destruct (process_blank_raises recs tail r2t
                (Lineage.parse_report_build_label_map report) Unmapped st1 r Hin)
      as [e He]; [now rewrite Hat|].
    rewrite He. exists e. reflexivity. }
  { intros pre line post Hs. unfold load_kraken_read_map.
    apply fold_result_skip. intros m. apply kraken_step_unclassified, Hs. }
Qed.

End ReadIdClaims.

Module AggOrder.
Import Py Reads GC Agg AggBasics DictFacts.

Definition odflt {A} (d : A) (o : option A) : A := match o with Some a => a | None => d end.

(** How [add_read] changes what one lineage holds. *)
Definition upd (fk : file_key) (g : Qc) (v : option counts_t * option Qc * option Z)
  : option counts_t * option Qc * option Z :=
  match v with
  | (c, s, n) =>
      (Some (bump fk (odflt zero_counts c)), Some (odflt 0 s + g), Some (odflt 0%Z n + 1)%Z)
  end.

Lemma view_add fk l g st l0 :
  view (add_read fk l g st) l0 = if String.eqb l0 l then upd fk g (view st l0) else view st l0.
Proof.
  unfold view, add_read, Dict.get_default. cbn [counts gc_sum gc_n]. rewrite !get_set.
  destruct (String.eqb l0 l) eqn:E; [|reflexivity].
  apply String.eqb_eq in E. subst. reflexivity.
Qed.

Lemma bump_comm fk1 fk2 c : bump fk1 (bump fk2 c) = bump fk2 (bump fk1 c).
Proof. destruct c, fk1, fk2; cbn; f_equal; lia. Qed.

Lemma upd_comm fk1 g1 fk2 g2 v : upd fk1 g1 (upd fk2 g2 v) = upd fk2 g2 (upd fk1 g1 v).
Proof.
  destruct v as [[c s] n]. cbn. rewrite bump_comm.
  replace (odflt 0 s + g2 + g1) with (odflt 0 s + g1 + g2)
    by (rewrite <- !Qcplus_assoc, (Qcplus_comm g1); reflexivity).
  reflexivity.
Qed.

Lemma add_read_proper fk l g a b :
  acc_equiv a b -> acc_equiv (add_read fk l g a) (add_read fk l g b).
Proof. intros H l0. rewrite !view_add, H. reflexivity. Qed.

Lemma add_read_comm fk1 l1 g1 fk2 l2 g2 st :
  acc_equiv (add_read fk1 l1 g1 (add_read fk2 l2 g2 st))
            (add_read fk2 l2 g2 (add_read fk1 l1 g1 st)).
Proof.
  intros l0. rewrite !view_add.
  destruct (String.eqb l0 l1), (String.eqb l0 l2); auto using upd_comm.
Qed.

Lemma acc_equiv_refl a : acc_equiv a a.
Proof. intros l; reflexivity. Qed.

Lemma acc_equiv_trans a b c : acc_equiv a b -> acc_equiv b c -> acc_equiv a c.
Proof. intros H1 H2 l. now rewrite H1. Qed.

Lemma res_equiv_trans x y z : res_equiv x y -> res_equiv y z -> res_equiv x z.
Proof.
  destruct x, y, z; cbn; try tauto. apply acc_equiv_trans.
Qed.

(** What one record does, independent of the accumulator: raise, skip, or
    add a GC value to a lineage. *)
Definition record_effect (r2t t2l : Dict.dict string) (r : fq_record)
  : result (option (string * Qc)) :=
  let! read_id := normalize_read_id (hdr r) in
  match lookup_lineage r2t t2l read_id with
  | None => Ok None
  | Some lineage =>
      if String.eqb lineage EmptyString then Ok None
      else Ok (Some (lineage, gc_fraction (sq r)))
  end.

Definition apply_effect (fk : file_key) (o : option (string * Qc)) (st : acc) : acc :=
  match o with
  | None => st
  | Some (l, g) => add_read fk l g st
  end.

Lemma record_step_effect r2t t2l fk st r :
  record_step r2t t2l fk st r =
  let! o := record_effect r2t t2l r in Ok (apply_effect fk o st).
Proof.
  unfold record_step, ingest, record_effect.
  destruct (normalize_read_id (hdr r)); cbn [bind]; [|reflexivity].
  destruct (lookup_lineage r2t t2l a); [|reflexivity].
  destruct (String.eqb s EmptyString); reflexivity.
Qed.

Lemma apply_effect_proper fk o a b :
  acc_equiv a b -> acc_equiv (apply_effect fk o a) (apply_effect fk o b).
Proof. destruct o as [[l g]|]; cbn; [apply add_read_proper | auto]. Qed.

Lemma apply_effect_comm fk o1 o2 st :
  acc_equiv (apply_effect fk o1 (apply_effect fk o2 st))
            (apply_effect fk o2 (apply_effect fk o1 st)).
Proof.
  destruct o1 as [[l1 g1]|], o2 as [[l2 g2]|]; cbn;
    auto using add_read_comm, acc_equiv_refl.
Qed.

Lemma fold_proper r2t t2l fk recs a b :
  acc_equiv a b ->
  res_equiv (fold_result (record_step r2t t2l fk) recs a)
            (fold_result (record_step r2t t2l fk) recs b).
Proof.
  revert a b. induction recs as [|r recs IH]; intros a b H; cbn [fold_result].
  - exact H.
  - rewrite !record_step_effect.
    destruct (record_effect r2t t2l r) as [o|e]; cbn [bind]; [|exact I].
    apply IH, apply_effect_proper, H.
Qed.

Lemma fold_perm r2t t2l fk recs recs' :
  Permutation recs recs' -> forall st,
  res_equiv (fold_result (record_step r2t t2l fk) recs st)
            (fold_result (record_step r2t t2l fk) recs' st).
Proof.
  induction 1 as [|r l l' _ IH|r1 r2 l|l l' l'' _ IH1 _ IH2]; intros st.
  - apply acc_equiv_refl.
  - cbn [fold_result]. rewrite record_step_effect.
    destruct (record_effect r2t t2l r); cbn [bind]; [apply IH | exact I].
  - cbn [fold_result].
    destruct (record_effect r2t t2l r1) as [o1|e1] eqn:E1,
             (record_effect r2t t2l r2) as [o2|e2] eqn:E2;
      rewrite !record_step_effect, ?E1, ?E2; cbn [bind];
      rewrite ?record_step_effect, ?E1, ?E2; cbn [bind]; try exact I.
    apply fold_proper, apply_effect_comm.
  - eapply res_equiv_trans; [apply IH1 | apply IH2].
Qed.

Lemma process_proper lines r2t t2l fk : forall a b,
  acc_equiv a b ->
  res_equiv (process_fastq lines r2t t2l fk a) (process_fastq lines r2t t2l fk b).
Proof.
  remember (List.length lines) as n eqn:Hn. revert lines Hn.
  induction n as [n IH] using lt_wf_ind. intros lines Hn a b H.
  destruct lines as [|h [|s [|p [|q rest]]]]; cbn [process_fastq]; try exact H.
  change (ingest r2t t2l fk h s a) with (record_step r2t t2l fk a (mk_fq h s p q)).
  change (ingest r2t t2l fk h s b) with (record_step r2t t2l fk b (mk_fq h s p q)).
  rewrite !record_step_effect.
  destruct (record_effect r2t t2l (mk_fq h s p q)); cbn [bind]; [|exact I].
  apply (IH (List.length rest)); [subst n; cbn; lia | reflexivity | apply apply_effect_proper, H].
Qed.

Lemma bind_proper (x y : result acc) (f g : acc -> result acc) :
  res_equiv x y -> (forall a b, acc_equiv a b -> res_equiv (f a) (g b)) ->
  res_equiv (bind x f) (bind y g).
Proof. destruct x, y; cbn; try tauto. intros H Hf. now apply Hf. Qed.

Lemma process_perm recs recs' tail r2t t2l fk a b :
  Permutation recs recs' -> acc_equiv a b ->
  res_equiv (process_fastq (app (flat_map record_lines recs) tail) r2t t2l fk a)
            (process_fastq (app (flat_map record_lines recs') tail) r2t t2l fk b).
Proof.
  intros Hp H. rewrite !process_records. apply bind_proper.
  - eapply res_equiv_trans; [apply fold_perm, Hp | apply fold_proper, H].
  - intros x y Hxy. now apply process_proper.
Qed.

End AggOrder.

Module AggClaims.
Import Py Reads GC Agg AggBasics AggOrder.

(** C2. Permuting the 4-line records of the mapped file, and those of the
    unmapped file (a trailing partial record, if any, staying last), does not
    change the outcome of the two passes: both raise, or both accumulators
    hold, for every lineage, the same total/mapped/unmapped counts, the same
    GC sum and the same GC sample count. GC values are exact rationals in
    this model, so the sums are equal exactly; with floats they agree up to
    the order of summation. *)
Theorem aggregate_record_order_invariant (r2t t2l : Dict.dict string)
  (recsM recsM' recsU recsU' : list fq_record) (tailM tailU : list string)
  (HM : Permutation recsM recsM') (HU : Permutation recsU recsU') :
  res_equiv
    (aggregate r2t t2l (app (flat_map record_lines recsM) tailM)
                       (app (flat_map record_lines recsU) tailU))
    (aggregate r2t t2l (app (flat_map record_lines recsM') tailM)
                       (app (flat_map record_lines recsU') tailU)).
Proof.
  unfold aggregate. apply bind_proper.
  - apply process_perm; [exact HM | apply acc_equiv_refl].
  - intros a b Hab. now apply process_perm.
Qed.

Definition rec (id seq : string) : fq_record :=
  mk_fq (String "@"%char id) seq "+" "IIII".

Lemma aggregate_record_order_invariant_witness :
  res_equiv
    (aggregate (Dict.set (Dict.set Dict.empty "r1" "10") "r2" "10")
               (Dict.set Dict.empty "10" "g__A")
               (app (flat_map record_lines [rec "r1" "GGCA"; rec "r2" "AT"]) [])
               (app (flat_map record_lines [rec "r9" "GG"]) []))
    (aggregate (Dict.set (Dict.set Dict.empty "r1" "10") "r2" "10")
               (Dict.set Dict.empty "10" "g__A")
               (app (flat_map record_lines [rec "r2" "AT"; rec "r1" "GGCA"]) [])
               (app (flat_map record_lines [rec "r9" "GG"]) [])).
Proof.
  apply aggregate_record_order_invariant; [apply perm_swap | apply Permutation_refl].
Defined.

End AggClaims.

Module AccInv.
Import Py Reads GC Agg AggBasics AggOrder DictFacts.

(** The invariant together with: the three dicts have the same keys, and
    [counts] has no duplicate key. *)
Definition acc_wf (st : acc) : Prop :=
  acc_inv st /\
  (forall l, Dict.get (counts st) l = None ->
     Dict.get (gc_n st) l = None /\ Dict.get (gc_sum st) l = None) /\
  NoDup (map fst (counts st)).

Lemma in_keys_set {V} (d : Dict.dict V) k v k' :
  In k' (map fst (Dict.set d k v)) -> k' = k \/ In k' (map fst d).
Proof.
  induction d as [|[k0 v0] d IH]; cbn; [intuition|].
  destruct (String.eqb k k0) eqn:E; cbn; [tauto|].
  intros [H|H]; [tauto|]. destruct (IH H); tauto.
Qed.

Lemma nodup_set {V} (d : Dict.dict V) k v :
  NoDup (map fst d) -> NoDup (map fst (Dict.set d k v)).
Proof.
  induction d as [|[k0 v0] d IH]; cbn; intros H.
  - constructor; [intros []|constructor].
  - inversion H as [|? ? Hn Hd]; subst.
    destruct (String.eqb k k0) eqn:E; cbn; [constructor; assumption|].
    constructor; [|now apply IH].
    intros Hin. apply in_keys_set in Hin as [Hin|Hin]; [|contradiction].
    subst. rewrite String.eqb_refl in E. discriminate.
Qed.

Lemma get_in {V} (d : Dict.dict V) k v :
  NoDup (map fst d) -> In (k, v) d -> Dict.get d k = Some v.
Proof.
  induction d as [|[k0 v0] d IH]; cbn; [intros _ []|].
  intros Hd [E|Hin]; inversion Hd as [|? ? Hn Hd']; subst.
  - inversion E; subst. now rewrite String.eqb_refl.
  - destruct (String.eqb k k0) eqn:E; [|now apply IH].
    apply String.eqb_eq in E; subst. exfalso. apply Hn.
    change k0 with (fst (k0, v)). now apply in_map.
Qed.

Lemma add_read_wf fk l g st : acc_wf st -> acc_wf (add_read fk l g st).
Proof.
  intros [Hinv [Hkeys Hnd]]. split; [|split].
  - intros l0 c. pose proof (view_add fk l g st l0) as V. unfold view in V.
    cbn [add_read counts gc_n gc_sum] in V |- *.
    destruct (String.eqb l0 l) eqn:E.
    + apply String.eqb_eq in E. subst l0.
      destruct (Dict.get (counts st) l) as [c0|] eqn:Hc.
      * destruct (Hinv l c0 Hc) as [[H0 [H1 H2]] [Ht [Hn H3]]].
        rewrite Hn in V. cbn in V. injection V as Vc Vs Vn.
        rewrite Vc. intros [= <-]. rewrite Vn.
        destruct fk, c0; cbn in *; repeat split; lia.
      * destruct (Hkeys l Hc) as [Hn Hs]. rewrite Hn, Hs in V. cbn in V.
        injection V as Vc Vs Vn. rewrite Vc. intros [= <-]. rewrite Vn.
        destruct fk; cbn; repeat split; lia.
    + injection V as Vc Vs Vn. rewrite Vc, Vn. apply Hinv.
  - intros l0 H. pose proof (view_add fk l g st l0) as V. unfold view in V.
    cbn [add_read counts gc_n gc_sum] in V, H |- *.
    destruct (String.eqb l0 l); [injection V as Vc _ _; congruence|].
    injection V as Vc Vs Vn. rewrite Vc in H. rewrite Vs, Vn. now apply Hkeys.
  - apply nodup_set, Hnd.
Qed.

Lemma ingest_wf r2t t2l fk h s st st' :
  acc_wf st -> ingest r2t t2l fk h s st = Ok st' -> acc_wf st'.
Proof.
  intros Hwf. change (ingest r2t t2l fk h s st) with (record_step r2t t2l fk st (mk_fq h s h h)).
  rewrite record_step_effect. destruct (record_effect r2t t2l _) as [[[l g]|]|e];
    cbn; intros E; inversion E; subst; [apply add_read_wf|]; exact Hwf.
Qed.

Lemma process_wf lines r2t t2l fk : forall st st',
  acc_wf st -> process_fastq lines r2t t2l fk st = Ok st' -> acc_wf st'.
Proof.
  remember (List.length lines) as n eqn:Hn. revert lines Hn.
  induction n as [n IH] using lt_wf_ind. intros lines Hn st st' Hwf.
  destruct lines as [|h [|s [|p [|q rest]]]]; cbn [process_fastq];
    try (intros [= <-]; exact Hwf).
  destruct (ingest r2t t2l fk h s st) as [st1|e] eqn:E; cbn [bind]; [|discriminate].
  apply (IH (List.length rest)); [subst n; cbn; lia | reflexivity |].
  eapply ingest_wf; eassumption.
Qed.

Lemma reachable_wf st : reachable st -> acc_wf st.
Proof.
  induction 1 as [|lines r2t t2l fk st st' _ IH Hp].
  - split; [intros l c H; discriminate H|]. split; [auto|constructor].
  - eapply process_wf; eassumption.
Qed.

(** C3. In every accumulator the Stream Aggregator can produce (from the
    empty one, through any sequence of passes, in particular the mapped
    pass then the unmapped pass), every lineage key of [counts] has
    non-negative total, mapped and unmapped counts, total = mapped +
    unmapped, a GC sample count equal to the total, and a total of at
    least 1. *)
Theorem reachable_acc_inv (st : acc) (Hr : reachable st) : acc_inv st.
Proof. apply reachable_wf, Hr. Qed.

Lemma reachable_acc_inv_witness :
  acc_inv (add_read Unmapped "g__A" 0 (add_read Mapped "g__A" 1 empty_acc)).
Proof.
  apply reachable_acc_inv.
  apply (reach_pass (app (flat_map record_lines [AggClaims.rec "r1" "AT"]) [])
           (Dict.set Dict.empty "r1" "10") (Dict.set Dict.empty "10" "g__A") Unmapped
           (add_read Mapped "g__A" 1 empty_acc)).
  - apply (reach_pass (app (flat_map record_lines [AggClaims.rec "r1" "GC"]) [])
             (Dict.set Dict.empty "r1" "10") (Dict.set Dict.empty "10" "g__A") Mapped
             empty_acc); [apply reach_empty | vm_compute; reflexivity].
  - vm_compute. reflexivity.
Defined.

End AccInv.

Module SortFacts.
Import Agg Writer.

Definition key (kv : string * counts_t) : Z := total (snd kv).

Definition desc (a b : string * counts_t) : Prop := (key b <= key a)%Z.

Lemma insert_perm x l : Permutation (insert_desc x l) (x :: l).
Proof.
  induction l as [|y l IH]; cbn; [constructor; constructor|].
  destruct (Z.ltb _ _); [reflexivity|].
  eapply perm_trans; [apply perm_skip, IH | apply perm_swap].
Qed.

Lemma insert_sorted x l : StronglySorted desc l -> StronglySorted desc (insert_desc x l).
Proof.
  induction l as [|y l IH]; intros H; cbn.
  - repeat constructor.
  - inversion H as [|? ? Hl Hy]; subst.
    destruct (Z.ltb (total (snd y)) (total (snd x))) eqn:E.
    + apply Z.ltb_lt in E. constructor; [exact H|]. constructor.
      * unfold desc, key. lia.
      * eapply Forall_impl; [|exact Hy]. unfold desc, key. intros z Hz. lia.
    + apply Z.ltb_ge in E. constructor; [now apply IH|].
      eapply Permutation_Forall; [symmetry; apply insert_perm|].
      constructor; [unfold desc, key; lia | exact Hy].
Qed.

Lemma sort_perm_acc l acc :
  Permutation (fold_left (fun s x => insert_desc x s) l acc) (app acc l).
Proof.
  revert acc. induction l as [|x l IH]; intros acc; cbn.
  - now rewrite app_nil_r.
  - eapply perm_trans; [apply IH|].
    eapply perm_trans; [apply Permutation_app_tail, insert_perm|].
    cbn. apply Permutation_middle.
Qed.

Lemma sort_perm l : Permutation (sort_desc l) l.
Proof. apply sort_perm_acc. Qed.

Lemma sort_sorted_acc l acc :
  StronglySorted desc acc -> StronglySorted desc (fold_left (fun s x => insert_desc x s) l acc).
Proof.
  revert acc. induction l as [|x l IH]; intros acc H; cbn; [exact H|].
  apply IH, insert_sorted, H.
Qed.

Lemma sort_sorted l : StronglySorted desc (sort_desc l).
Proof. apply sort_sorted_acc. constructor. Qed.

Definition at_key (t : Z) (kv : string * counts_t) : bool := Z.eqb (key kv) t.

Lemma filter_none {A} (f : A -> bool) l :
  (forall x, In x l -> f x = false) -> filter f l = [].
Proof.
  induction l as [|y l IH]; intros H; cbn; [reflexivity|].
  rewrite H by (left; reflexivity). apply IH. intros x Hx. apply H. right. exact Hx.
Qed.

Lemma insert_stable t x l :
  StronglySorted desc l ->
  filter (at_key t) (insert_desc x l) =
  app (filter (at_key t) l) (if at_key t x then [x] else []).
Proof.
  induction l as [|y l IH]; intros H; cbn; [destruct (at_key t x); reflexivity|].
  inversion H as [|? ? Hl Hy]; subst.
  destruct (Z.ltb (total (snd y)) (total (snd x))) eqn:E.
  - apply Z.ltb_lt in E. cbn.
    destruct (at_key t x) eqn:Ex.
    + unfold at_key, key in Ex. apply Z.eqb_eq in Ex. subst t.
      assert (Hnone : filter (at_key (total (snd x))) (y :: l) = []).
      { apply filter_none. intros z [<-|Hz]; unfold at_key, key; apply Z.eqb_neq.
        - lia.
        - rewrite Forall_forall in Hy. specialize (Hy z Hz). unfold desc, key in Hy. lia. }
      cbn in Hnone. rewrite Hnone. reflexivity.
    + rewrite app_nil_r. reflexivity.
  - cbn. rewrite IH by exact Hl. destruct (at_key t y); reflexivity.
Qed.

Lemma sort_stable_acc t l acc :
  StronglySorted desc acc ->
  filter (at_key t) (fold_left (fun s x => insert_desc x s) l acc) =
  app (filter (at_key t) acc) (filter (at_key t) l).
Proof.
  revert acc. induction l as [|x l IH]; intros acc H; cbn.
  - now rewrite app_nil_r.
  - rewrite IH by (apply insert_sorted, H). rewrite insert_stable by exact H.
    rewrite <- app_assoc. destruct (at_key t x); reflexivity.
Qed.

(** Stability: among equal totals, the sorted list keeps the input order. *)
Lemma sort_stable t l : filter (at_key t) (sort_desc l) = filter (at_key t) l.
Proof. unfold sort_desc. rewrite sort_stable_acc by constructor. reflexivity. Qed.

End SortFacts.

Module WriterProofs.
Import Py Reads GC Agg Writer AggBasics AccInv SortFacts.

(** Only [IndexError] escapes the loading and aggregation passes. *)
Lemma normalize_exn s e : normalize_read_id s = Raise e -> e = IndexError.
Proof. unfold normalize_read_id. destruct (split_ws _); congruence. Qed.

Lemma fold_result_exn {S X} (f : S -> X -> result S) xs s e :
  (forall s' x e', f s' x = Raise e' -> e' = IndexError) ->
  fold_result f xs s = Raise e -> e = IndexError.
Proof.
  intros Hf. revert s. induction xs as [|x xs IH]; intros s; cbn; [discriminate|].
  destruct (f s x) as [s'|e'] eqn:E; cbn [bind]; [apply IH|].
  intros [= <-]. eapply Hf. exact E.
Qed.

Lemma load_exn lines co e : load_kraken_read_map lines co = Raise e -> e = IndexError.
Proof.
  apply fold_result_exn. intros m line e'. unfold kraken_step.
  destruct (String.eqb _ _); [discriminate|].
  destruct (Nat.ltb _ _); [discriminate|].
  destruct (_ && _); [discriminate|].
  destruct (normalize_read_id _) eqn:E; cbn [bind]; [discriminate|].
  intros [= <-]. eapply normalize_exn. exact E.
Qed.

Lemma ingest_exn r2t t2l fk h s st e :
  ingest r2t t2l fk h s st = Raise e -> e = IndexError.
Proof.
  unfold ingest. destruct (normalize_read_id h) eqn:E; cbn [bind].
  - destruct (lookup_lineage _ _ _); [destruct (String.eqb _ _)|]; discriminate.
  - intros [= <-]. eapply normalize_exn. exact E.
Qed.

Lemma process_exn lines r2t t2l fk : forall st e,
  process_fastq lines r2t t2l fk st = Raise e -> e = IndexError.
Proof.
  remember (List.length lines) as n eqn:Hn. revert lines Hn.
  induction n as [n IH] using lt_wf_ind. intros lines Hn st e.
  destruct lines as [|h [|s [|p [|q rest]]]]; cbn [process_fastq]; try discriminate.
  destruct (ingest r2t t2l fk h s st) as [st1|e1] eqn:E; cbn [bind].
  - apply (IH (List.length rest)); [subst n; cbn; lia | reflexivity].
  - intros [= <-]. eapply ingest_exn. exact E.
Qed.

(** Exact rationals of the proportions. *)
Lemma this_div_Z m t : (this (Z2Qc m / Z2Qc t) == inject_Z m / inject_Z t)%Q.
Proof. unfold Qcdiv, Qcmult, Qcinv, Z2Qc. cbn [this Q2Qc]. rewrite !Qred_correct. reflexivity. Qed.

Lemma Z2Qc_nonzero t : (1 <= t)%Z -> Z2Qc t <> 0.
Proof.
  intros Ht H. unfold Z2Qc in H. apply Q2Qc_eq_iff in H.
  change 0%Q with (inject_Z 0) in H. rewrite inject_Z_injective in H. lia.
Qed.

Lemma Z2Qc_zero : Z2Qc 0 = 0.
Proof. reflexivity. Qed.

Lemma prop_bounds m t : (0 <= m)%Z -> (m <= t)%Z -> (1 <= t)%Z ->
  0 <= Z2Qc m / Z2Qc t /\ Z2Qc m / Z2Qc t <= 1.
Proof.
  intros H0 H1 H2. unfold Qcle. rewrite this_div_Z. cbn [this Q2Qc].
  assert (Hpos : (0 < inject_Z t)%Q).
  { change 0%Q with (inject_Z 0). rewrite <- Zlt_Qlt. lia. }
  split.
  - apply Qle_shift_div_l; [exact Hpos|]. rewrite Qmult_0_l.
    change 0%Q with (inject_Z 0). rewrite <- Zle_Qle. exact H0.
  - apply Qle_shift_div_r; [exact Hpos|]. rewrite Qmult_1_l.
    rewrite <- Zle_Qle. exact H1.
Qed.

(** The average-GC column of [emit_row]. *)
Definition avg_gc_of (st : acc) (l : string) : Qc :=
  let n := Dict.get_default 0%Z (gc_n st) l in
  if Z.eqb n 0 then 0 else Dict.get_default 0 (gc_sum st) l / Z2Qc n.

(** The row [emit_row] produces for a lineage with a positive total. *)
Definition row_of (st : acc) (kv : string * counts_t) : out_row :=
  mk_out (fst kv) (total (snd kv))
    (Z2Qc (mapped (snd kv)) / Z2Qc (total (snd kv)))
    (Z2Qc (unmapped (snd kv)) / Z2Qc (total (snd kv)))
    (avg_gc_of st (fst kv)).

Definition keep (min_reads : Z) (kv : string * counts_t) : bool :=
  Z.leb min_reads (total (snd kv)).

Lemma emit_row_ok st l c :
  (1 <= total c)%Z -> emit_row st l c = Ok (row_of st (l, c)).
Proof.
  intros H. unfold emit_row, py_div.
  destruct (Qc_eq_dec (Z2Qc (total c)) 0) as [E|_];
    [exfalso; exact (Z2Qc_nonzero _ H E)|].
  cbn [bind]. reflexivity.
Qed.

Lemma emit_row_zero st l c :
  total c = 0%Z -> emit_row st l c = Raise ZeroDivisionError.
Proof.
  intros H. unfold emit_row, py_div. rewrite H, Z2Qc_zero.
  destruct (Qc_eq_dec 0 0) as [_|N]; [reflexivity|contradiction].
Qed.

Lemma write_rows_ok st min items :
  (forall kv, In kv items -> (1 <= total (snd kv))%Z) ->
  write_rows st min items = Ok (map (row_of st) (filter (keep min) items)).
Proof.
  induction items as [|[l c] items IH]; intros H; cbn; [reflexivity|].
  unfold keep at 1. cbn [snd].
  assert (Hc : (1 <= total c)%Z) by exact (H (l, c) (or_introl eq_refl)).
  assert (IH' := IH (fun kv Hin => H kv (or_intror Hin))).
  destruct (Z.ltb (total c) min) eqn:E.
  - apply Z.ltb_lt in E. replace (Z.leb min (total c)) with false
      by (symmetry; apply Z.leb_gt; lia). exact IH'.
  - apply Z.ltb_ge in E. replace (Z.leb min (total c)) with true
      by (symmetry; apply Z.leb_le; lia).
    rewrite emit_row_ok by exact Hc. cbn [bind]. rewrite IH'. reflexivity.
Qed.

Lemma get_some_in {V} (d : Dict.dict V) k v : Dict.get d k = Some v -> In (k, v) d.
Proof.
  induction d as [|[k0 v0] d IH]; cbn; [discriminate|].
  destruct (String.eqb k k0) eqn:E.
  - apply String.eqb_eq in E. intros [= <-]. subst. left. reflexivity.
  - intros H. right. apply IH, H.
Qed.

Lemma in_sorted_get st kv :
  acc_wf st -> In kv (sort_desc (counts st)) -> Dict.get (counts st) (fst kv) = Some (snd kv).
Proof.
  intros [_ [_ Hnd]] Hin. destruct kv as [l c]. apply get_in; [exact Hnd|].
  eapply Permutation_in; [apply sort_perm|exact Hin].
Qed.

Lemma sorted_totals_pos st kv :
  acc_wf st -> In kv (sort_desc (counts st)) -> (1 <= total (snd kv))%Z.
Proof.
  intros Hwf Hin. pose proof (in_sorted_get st kv Hwf Hin) as G.
  destruct Hwf as [Hinv _]. apply (Hinv _ _ G).
Qed.

Lemma attrition_rows_ok st min :
  acc_wf st ->
  attrition_rows st min = Ok (map (row_of st) (filter (keep min) (sort_desc (counts st)))).
Proof.
  intros Hwf. unfold attrition_rows. apply write_rows_ok.
  intros kv Hin. eapply sorted_totals_pos; eassumption.
Qed.

Lemma StronglySorted_filter {A} (R : A -> A -> Prop) f l :
  StronglySorted R l -> StronglySorted R (filter f l).
Proof.
  induction l as [|x l IH]; intros H; cbn; [constructor|].
  inversion H as [|? ? Hl Hx]; subst.
  destruct (f x); [|now apply IH].
  constructor; [now apply IH|].
  rewrite Forall_forall in Hx |- *. intros y Hy. apply filter_In in Hy. apply Hx, Hy.
Qed.

Lemma StronglySorted_map {A B} (R : A -> A -> Prop) (R' : B -> B -> Prop) (f : A -> B) l :
  (forall a b, R a b -> R' (f a) (f b)) ->
  StronglySorted R l -> StronglySorted R' (map f l).
Proof.
  intros HR. induction l as [|x l IH]; intros H; cbn; [constructor|].
  inversion H as [|? ? Hl Hx]; subst. constructor; [now apply IH|].
  rewrite Forall_forall in Hx |- *. intros y Hy. apply in_map_iff in Hy as [z [<- Hz]].
  apply HR, Hx, Hz.
Qed.

Lemma NoDup_map_filter {A B} (g : A -> B) f l :
  NoDup (map g l) -> NoDup (map g (filter f l)).
Proof.
  induction l as [|x l IH]; intros H; cbn; [constructor|].
  inversion H as [|? ? Hn Hd]; subst.
  destruct (f x); cbn; [|now apply IH].
  constructor; [|now apply IH].
  intros Hin. apply Hn. apply in_map_iff in Hin as [y [Hy Hin]].
  apply filter_In in Hin. rewrite <- Hy. apply in_map, Hin.
Qed.

Lemma filter_map_comm {A B} (f : A -> B) (g : B -> bool) l :
  filter g (map f l) = map f (filter (fun x => g (f x)) l).
Proof.
  induction l as [|x l IH]; cbn; [reflexivity|].
  destruct (g (f x)); cbn; rewrite IH; reflexivity.
Qed.

Lemma filter_and {A} (f g : A -> bool) l :
  filter f (filter g l) = filter (fun x => g x && f x) l.
Proof.
  induction l as [|x l IH]; cbn; [reflexivity|].
  destruct (g x); cbn; [destruct (f x); cbn; rewrite IH|rewrite IH]; reflexivity.
Qed.

Lemma filter_ext_eq {A} (f g : A -> bool) l :
  (forall x, f x = g x) -> filter f l = filter g l.
Proof.
  intros H. induction l as [|x l IH]; cbn; [reflexivity|]. rewrite H, IH. reflexivity.
Qed.

Lemma reachable_after_passes report kraken mfq ufq co r2t st1 st2 :
  load_kraken_read_map kraken co = Ok r2t ->
  process_fastq mfq r2t (Lineage.parse_report_build_label_map report) Mapped empty_acc = Ok st1 ->
  process_fastq ufq r2t (Lineage.parse_report_build_label_map report) Unmapped st1 = Ok st2 ->
  reachable st2.
Proof.
  intros _ H1 H2. eapply reach_pass; [|exact H2]. eapply reach_pass; [apply reach_empty|exact H1].
Qed.

End WriterProofs.

Module WriterClaims.
Import Py Reads GC Agg Writer AggBasics AccInv SortFacts WriterProofs.

(** C4 (counterexample). [write_attrition_csv] has no explicit guard for a
    total of 0: given an accumulator holding a lineage with total 0 and a
    threshold of 0, the data-row loop divides by zero. *)
Lemma writer_zero_total_counterexample :
  attrition_rows (mk_acc [("x", zero_counts)] [] []) 0 = Raise ZeroDivisionError.
Proof. vm_compute. reflexivity. Qed.

(** C4 (amended). The writer never raises a division-by-zero error in a
    run of [write_attrition_csv], whatever the inputs and the threshold
    (thresholds <= 0 included): every accumulator the passes produce has
    totals >= 1, so the data-row loop succeeds for every threshold; the
    average GC is 0 when the GC sample count is 0; and a lineage whose
    total is 0 would raise, since no explicit guard exists. *)
Theorem writer_no_zero_division :
  (forall report kraken mfq ufq co min_reads,
      write_attrition_csv report kraken mfq ufq co min_reads <> Raise ZeroDivisionError) /\
  (forall st min_reads, reachable st -> exists rows, attrition_rows st min_reads = Ok rows) /\
  (forall st l c, (1 <= total c)%Z -> Dict.get_default 0%Z (gc_n st) l = 0%Z ->
      exists mp up, emit_row st l c = Ok (mk_out l (total c) mp up 0)) /\
  (forall st l c, total c = 0%Z -> emit_row st l c = Raise ZeroDivisionError).
Proof.
  split; [|split; [|split]].
  - intros report kraken mfq ufq co min_reads. unfold write_attrition_csv.
    destruct (load_kraken_read_map kraken co) as [r2t|e] eqn:L; cbn [bind];
      [|intros [= ->]; apply load_exn in L; discriminate].
    destruct (process_fastq mfq r2t _ Mapped empty_acc) as [st1|e] eqn:P1; cbn [bind];
      [|intros [= ->]; apply process_exn in P1; discriminate].
    destruct (process_fastq ufq r2t _ Unmapped st1) as [st2|e] eqn:P2; cbn [bind];
      [|intros [= ->]; apply process_exn in P2; discriminate].
    pose proof (reachable_after_passes _ _ _ _ _ _ _ _ L P1 P2) as Hr.
    rewrite attrition_rows_ok by (apply reachable_wf, Hr). discriminate.
  - intros st min_reads Hr. eexists. apply attrition_rows_ok, reachable_wf, Hr.
  - intros st l c Hc Hn. exists (Z2Qc (mapped c) / Z2Qc (total c)),
      (Z2Qc (unmapped c) / Z2Qc (total c)).
    rewrite emit_row_ok by exact Hc. unfold row_of, avg_gc_of. cbn [fst snd].
    rewrite Hn. reflexivity.
  - apply emit_row_zero.
Qed.

(** C5. For every accumulator the Stream Aggregator can produce and every
    threshold, the data rows are: exactly the lineages (each once) whose
    total is at least the threshold; sorted by total descending; among
    rows of equal total, in the accumulator's order; and each row carries
    the total, mapped/total, unmapped/total and GC-sum/GC-count (0 when
    the GC count is 0), both proportions in [0,1]. *)
Theorem attrition_rows_spec (st : acc) (min_reads : Z) (Hr : reachable st) :
  exists rows, attrition_rows st min_reads = Ok rows /\
  (forall l, In l (map o_lineage rows) <->
     exists c, Dict.get (counts st) l = Some c /\ (min_reads <= total c)%Z) /\
  NoDup (map o_lineage rows) /\
  StronglySorted (fun r1 r2 => (o_total r2 <= o_total r1)%Z) rows /\
  (forall t, map o_lineage (filter (fun r => Z.eqb (o_total r) t) rows) =
     map fst (filter (fun kv => Z.leb min_reads (total (snd kv)) && Z.eqb (total (snd kv)) t)
                (counts st))) /\
  (forall r, In r rows -> exists c,
     Dict.get (counts st) (o_lineage r) = Some c /\
     o_total r = total c /\
     o_mapped_prop r = Z2Qc (mapped c) / Z2Qc (total c) /\
     o_unmapped_prop r = Z2Qc (unmapped c) / Z2Qc (total c) /\
     o_avg_gc r = (let n := Dict.get_default 0%Z (gc_n st) (o_lineage r) in
                   if Z.eqb n 0 then 0
                   else Dict.get_default 0 (gc_sum st) (o_lineage r) / Z2Qc n) /\
     (0 <= o_mapped_prop r /\ o_mapped_prop r <= 1) /\
     (0 <= o_unmapped_prop r /\ o_unmapped_prop r <= 1)).
Proof.
  pose proof (reachable_wf st Hr) as Hwf.
  exists (map (row_of st) (filter (keep min_reads) (sort_desc (counts st)))).
  assert (Hlin : map o_lineage (map (row_of st) (filter (keep min_reads) (sort_desc (counts st))))
                 = map fst (filter (keep min_reads) (sort_desc (counts st)))).
  { rewrite map_map. reflexivity. }
  split; [apply attrition_rows_ok, Hwf|].
  split; [|split; [|split; [|split]]].
  - intros l. rewrite Hlin. split.
    + intros Hin. apply in_map_iff in Hin as [[l' c] [E Hin]]. cbn in E. subst l'.
      apply filter_In in Hin as [Hin Hk]. exists c. split.
      * exact (in_sorted_get st (l, c) Hwf Hin).
      * unfold keep in Hk. cbn in Hk. apply Z.leb_le, Hk.
    + intros [c [G Hm]]. change l with (fst (l, c)). apply in_map, filter_In. split.
      * eapply Permutation_in; [symmetry; apply sort_perm|]. apply get_some_in, G.
      * unfold keep. apply Z.leb_le, Hm.
  - rewrite Hlin. apply NoDup_map_filter.
    destruct Hwf as [_ [_ Hnd]].
    eapply Permutation_NoDup; [|exact Hnd]. apply Permutation_map. symmetry. apply sort_perm.
  - apply (StronglySorted_map desc); [|apply StronglySorted_filter, sort_sorted].
    intros a b H. exact H.
  - intros t. rewrite filter_map_comm, map_map. cbn [o_lineage o_total row_of].
    rewrite filter_and.
    rewrite (filter_ext_eq _ (fun x => at_key t x && keep min_reads x))
      by (intros x; apply andb_comm).
    rewrite <- (filter_and (keep min_reads) (at_key t)), sort_stable, filter_and.
    f_equal. apply filter_ext_eq. intros x. apply andb_comm.
  - intros r Hin. apply in_map_iff in Hin as [[l c] [<- Hin]].
    apply filter_In in Hin as [Hin _].
    pose proof (in_sorted_get st (l, c) Hwf Hin) as G. cbn in G.
    destruct Hwf as [Hinv _].
    destruct (Hinv _ _ G) as [[Ht [Hm Hu]] [Hsum [_ H1]]].
    exists c. cbn [row_of o_lineage o_total o_mapped_prop o_unmapped_prop o_avg_gc fst snd].
    split; [exact G|]. split; [reflexivity|]. split; [reflexivity|]. split; [reflexivity|].
    split; [reflexivity|]. split; apply prop_bounds; lia.
Qed.

Lemma attrition_rows_spec_witness :
  reachable (add_read Unmapped "g__A" 0 (add_read Mapped "g__A" 1 empty_acc)) /\
  exists rows, attrition_rows (add_read Unmapped "g__A" 0 (add_read Mapped "g__A" 1 empty_acc)) 1
                 = Ok rows /\ List.length rows = 1%nat.
Proof.
  assert (Hr : reachable (add_read Unmapped "g__A" 0 (add_read Mapped "g__A" 1 empty_acc))).
  { apply (reach_pass (app (flat_map record_lines [AggClaims.rec "r1" "AT"]) [])
             (Dict.set Dict.empty "r1" "10") (Dict.set Dict.empty "10" "g__A") Unmapped
             (add_read Mapped "g__A" 1 empty_acc)).
    - apply (reach_pass (app (flat_map record_lines [AggClaims.rec "r1" "GC"]) [])
               (Dict.set Dict.empty "r1" "10") (Dict.set Dict.empty "10" "g__A") Mapped
               empty_acc); [apply reach_empty | vm_compute; reflexivity].
    - vm_compute. reflexivity. }
  split; [exact Hr|].
  destruct (attrition_rows_spec _ 1 Hr) as [rows [E _]].
  exists rows. split; [exact E|].
  vm_compute in E. injection E as <-. reflexivity.
Defined.

End WriterClaims.

Module CacheProofs.
Import Py Cache DictFacts WriterProofs.

(** [os.utime] on the file named [n] of the directory: its mtime becomes [m]. *)
Definition touch_entry (n : string) (m : Q) (x : entry) : entry :=
  if String.eqb (ename x) n then mk_entry (ename x) (is_file x) (size x) m (bytes x) else x.

Definition touch (n : string) (m : Q) (dir : list entry) : list entry :=
  map (touch_entry n m) dir.

(** What the fingerprint reads of a regular file. *)
Definition tuple_of (e : entry) : string * Z * Z := (ename e, size e, py_int (mtime e)).

Definition tuples (dir : list entry) : list (string * Z * Z) :=
  map tuple_of (filter is_file (sort_by_name dir)).

Definition feed_t (t : string * Z * Z) : string :=
  let '(n, s, m) := t in n ++ str_int s ++ str_int m.

Definition cat (l : list string) : string := fold_right String.append EmptyString l.

Lemma digest_tuples dir : digest_input dir = cat (map feed_t (tuples dir)).
Proof. unfold digest_input, tuples, cat. rewrite map_map. reflexivity. Qed.

(** Strings. *)
Lemma str_app_assoc a b c : (a ++ b) ++ c = a ++ (b ++ c).
Proof. induction a as [|ch a IH]; cbn; [reflexivity|]. rewrite IH. reflexivity. Qed.

Lemma str_app_nil a : a ++ EmptyString = a.
Proof. induction a as [|ch a IH]; cbn; [reflexivity|]. rewrite IH. reflexivity. Qed.

Lemma str_length_app a b : String.length (a ++ b) = (String.length a + String.length b)%nat.
Proof. induction a as [|ch a IH]; cbn; [reflexivity|]. rewrite IH. reflexivity. Qed.

Lemma str_cancel_l a b c : a ++ b = a ++ c -> b = c.
Proof. induction a as [|ch a IH]; cbn; [auto|]. intros [= H]. apply IH, H. Qed.

Lemma str_cancel_r a b r : a ++ r = b ++ r -> a = b.
Proof.
  intros H. assert (Hl : String.length a = String.length b).
  { apply (f_equal String.length) in H. rewrite !str_length_app in H. lia. }
  revert b H Hl. induction a as [|ch a IH]; intros [|ch' b] H Hl; cbn in *;
    try discriminate; [reflexivity|].
  injection H as -> H. f_equal. apply IH; [exact H|lia].
Qed.

Lemma cat_app l1 l2 : cat (app l1 l2) = cat l1 ++ cat l2.
Proof.
  induction l1 as [|s l1 IH]; cbn; [reflexivity|]. fold (cat l1). fold (cat (app l1 l2)).
  rewrite IH, str_app_assoc. reflexivity.
Qed.

(** Distinct integers have distinct decimal texts. *)
Lemma to_int_not_pos_nil z : Z.to_int z <> Decimal.Pos Decimal.Nil.
Proof.
  destruct z as [|p|p]; cbn; [discriminate| |discriminate].
  intros [= H]. pose proof (DecimalPos.Unsigned.of_to p) as E. rewrite H in E. discriminate.
Qed.

Lemma to_int_not_neg_nil z : Z.to_int z <> Decimal.Neg Decimal.Nil.
Proof.
  destruct z as [|p|p]; cbn; [discriminate|discriminate|].
  intros [= H]. pose proof (DecimalPos.Unsigned.of_to p) as E. rewrite H in E. discriminate.
Qed.

Lemma str_int_inj a b : str_int a = str_int b -> a = b.
Proof.
  unfold str_int. intros H. apply (f_equal NilZero.int_of_string) in H.
  rewrite !NilZero.isi in H by (apply to_int_not_pos_nil || apply to_int_not_neg_nil).
  injection H as H. apply DecimalZ.to_int_inj, H.
Qed.

(** The name sort. *)
Lemma name_le_total a b : name_le a b = false -> name_le b a = true.
Proof.
  unfold name_le. rewrite (String.compare_antisym (ename b)).
  destruct (String.compare (ename a) (ename b)); cbn; congruence.
Qed.

Lemma insert_name_perm x l : Permutation (insert_by_name x l) (x :: l).
Proof.
  induction l as [|y l IH]; cbn; [reflexivity|].
  destruct (name_le x y); [reflexivity|].
  eapply perm_trans; [apply perm_skip, IH | apply perm_swap].
Qed.

Lemma sort_name_perm l : Permutation (sort_by_name l) l.
Proof.
  unfold sort_by_name. cut (forall acc, Permutation (fold_left (fun s x => insert_by_name x s) l acc) (app acc l)).
  { intros H. apply H. }
  induction l as [|x l IH]; intros acc; cbn; [now rewrite app_nil_r|].
  eapply perm_trans; [apply IH|].
  eapply perm_trans; [apply Permutation_app_tail, insert_name_perm|].
  apply Permutation_middle.
Qed.

Definition name_rel (a b : entry) : Prop := name_le a b = true.

Lemma insert_name_sorted x l : Sorted name_rel l -> Sorted name_rel (insert_by_name x l).
Proof.
  induction l as [|y l IH]; intros H; cbn; [repeat constructor|].
  destruct (name_le x y) eqn:E; [constructor; [exact H | constructor; exact E]|].
  apply name_le_total in E. inversion H as [|? ? Hl Hy]; subst.
  constructor; [now apply IH|].
  destruct l as [|z l]; cbn; [constructor; exact E|].
  destruct (name_le x z); constructor; [exact E|]. inversion Hy. assumption.
Qed.

Lemma sort_name_sorted l : Sorted name_rel (sort_by_name l).
Proof.
  unfold sort_by_name. cut (forall acc, Sorted name_rel acc ->
    Sorted name_rel (fold_left (fun s x => insert_by_name x s) l acc)).
  { intros H. apply H. constructor. }
  induction l as [|x l IH]; intros acc H; cbn; [exact H|]. apply IH, insert_name_sorted, H.
Qed.

Lemma insert_name_map f x l :
  (forall y, ename (f y) = ename y) ->
  insert_by_name (f x) (map f l) = map f (insert_by_name x l).
Proof.
  intros Hf. induction l as [|y l IH]; cbn; [reflexivity|].
  unfold name_le at 1. rewrite !Hf. fold (name_le x y).
  destruct (name_le x y); cbn; [reflexivity|]. rewrite IH. reflexivity.
Qed.

Lemma sort_name_map f l :
  (forall y, ename (f y) = ename y) -> sort_by_name (map f l) = map f (sort_by_name l).
Proof.
  intros Hf. unfold sort_by_name.
  cut (forall acc, fold_left (fun s x => insert_by_name x s) (map f l) (map f acc) =
                   map f (fold_left (fun s x => insert_by_name x s) l acc)).
  { intros H. apply (H []). }
  induction l as [|x l IH]; intros acc; cbn; [reflexivity|].
  rewrite insert_name_map by exact Hf. apply IH.
Qed.


(** After any call, successful or not, the artifact it names is present. *)
Lemma build_leaves_artifact hex16 os_read partial dir cd r cd1 :
  build_or_get_binned_reference hex16 os_read partial dir cd = (r, cd1) ->
  exists a, Dict.get (artifacts cd1) (artifact_name hex16 dir) = Some a.
Proof.
  unfold build_or_get_binned_reference.
  destruct (Dict.get (artifacts cd) (artifact_name hex16 dir)) as [a|] eqn:G.
  - intros [= <- <-]. exists a. exact G.
  - destruct (copy_all os_read partial _) as [data [u|e]];
      intros [= <- <-]; cbn [artifacts]; eexists; apply get_set_eq.
Qed.

(** After a successful call the artifact it names is present. *)
Lemma build_present hex16 os_read partial dir cd p cd1 :
  build_or_get_binned_reference hex16 os_read partial dir cd = (Ok p, cd1) ->
  p = artifact_name hex16 dir /\ exists a, Dict.get (artifacts cd1) p = Some a.
Proof.
  intros H. pose proof (build_leaves_artifact _ _ _ _ _ _ _ H) as Ha. revert H.
  unfold build_or_get_binned_reference.
  destruct (Dict.get (artifacts cd) (artifact_name hex16 dir)) as [a|] eqn:G.
  - intros [= <- _]. split; [reflexivity|exact Ha].
  - destruct (copy_all os_read partial _) as [data [u|e]]; [|discriminate].
    intros [= <- _]. split; [reflexivity|exact Ha].
Qed.

Lemma key_of_tuples hex16 dir1 dir2 :
  tuples dir1 = tuples dir2 -> artifact_name hex16 dir1 = artifact_name hex16 dir2.
Proof.
  intros H. unfold artifact_name, bins_cache_key. rewrite !digest_tuples, H. reflexivity.
Qed.

Lemma touch_tuples n m dir :
  tuples (touch n m dir) =
  map (fun e => if String.eqb (ename e) n then (ename e, size e, py_int m) else tuple_of e)
      (filter is_file (sort_by_name dir)).
Proof.
  unfold tuples, touch. rewrite sort_name_map
    by (intros y; unfold touch_entry; destruct (String.eqb _ _); reflexivity).
  rewrite filter_map_comm, map_map.
  rewrite (filter_ext_eq (fun x => is_file (touch_entry n m x)) is_file)
    by (intros y; unfold touch_entry; destruct (String.eqb _ _); reflexivity).
  apply map_ext. intros y. unfold touch_entry, tuple_of.
  destruct (String.eqb (ename y) n); reflexivity.
Qed.

End CacheProofs.

Module CacheClaims.
Import Py Cache DictFacts WriterProofs CacheProofs.







Definition subsec_dir : list entry := [mk_entry "a.fa" true 5 (1003 # 10) "ACGT"].

(** C8 (counterexample). Setting a fragment file's mtime from 100.3 s to
    100.8 s changes the directory but not the bytes fed to the digest, so
    the key and the returned path stay the same for any hash. *)
Lemma cache_subsecond_touch_counterexample :
  touch "a.fa" (1008 # 10) subsec_dir <> subsec_dir /\
  digest_input (touch "a.fa" (1008 # 10) subsec_dir) = digest_input subsec_dir.
Proof. split; [vm_compute; discriminate | vm_compute; reflexivity]. Qed.

(** C8 (amended). If a call succeeds and the (name, size, whole-second
    mtime) tuples of the regular files are the same at the next call with
    the cache directory it left, the next call returns the same path and
    leaves the cache directory unchanged (no rewrite). Setting a regular
    file's mtime to a different whole second changes the bytes fed to the
    digest (names in a directory are distinct); setting it within the same
    whole second changes nothing the key reads. *)
Theorem cache_key_spec :
  (forall hex16 os_read partial dir1 dir2 cd p cd1,
     build_or_get_binned_reference hex16 os_read partial dir1 cd = (Ok p, cd1) ->
     tuples dir1 = tuples dir2 ->
     build_or_get_binned_reference hex16 os_read partial dir2 cd1 = (Ok p, cd1)) /\
  (forall dir n m, NoDup (map ename dir) ->
     (exists e, In e dir /\ ename e = n /\ is_file e = true /\ py_int (mtime e) <> py_int m) ->
     digest_input (touch n m dir) <> digest_input dir) /\
  (forall dir n m,
     (forall e, In e dir -> ename e = n -> py_int (mtime e) = py_int m) ->
     tuples (touch n m dir) = tuples dir).
Proof.
  split; [|split].
  - intros hex16 os_read partial dir1 dir2 cd p cd1 H Ht.
    destruct (build_present _ _ _ _ _ _ _ H) as [-> [a G]].
    unfold build_or_get_binned_reference.
    rewrite <- (key_of_tuples hex16 dir1 dir2 Ht), G. reflexivity.
  - intros dir n m Hnd [e [Hin [<- [Hf Hm]]]] Heq.
    rewrite !digest_tuples, touch_tuples in Heq. unfold tuples in Heq.
    set (L := filter is_file (sort_by_name dir)) in *.
    assert (HL : In e L).
    { apply filter_In. split; [|exact Hf].
      apply (Permutation_in _ (Permutation_sym (sort_name_perm _))), Hin. }
    assert (HndL : NoDup (map ename L)).
    { apply NoDup_map_filter. eapply Permutation_NoDup; [|exact Hnd].
      apply Permutation_map, Permutation_sym, sort_name_perm. }
    apply in_split in HL as [A [B HAB]]. rewrite HAB in Heq, HndL.
    rewrite map_app in HndL. cbn [map] in HndL.
    apply NoDup_remove_2 in HndL. rewrite <- map_app in HndL.
    assert (Hother : forall x, In x (app A B) -> String.eqb (ename x) (ename e) = false).
    { intros x Hx. apply String.eqb_neq. intros E. apply HndL. rewrite <- E.
      apply in_map, Hx. }
    rewrite !map_app in Heq. cbn [map] in Heq. rewrite String.eqb_refl in Heq.
    rewrite (map_ext_in _ tuple_of A) in Heq
      by (intros x Hx; rewrite Hother by (apply in_or_app; left; exact Hx); reflexivity).
    rewrite (map_ext_in _ tuple_of B) in Heq
      by (intros x Hx; rewrite Hother by (apply in_or_app; right; exact Hx); reflexivity).
    rewrite !cat_app in Heq. apply str_cancel_l in Heq.
    cbn [map cat fold_right tuple_of feed_t] in Heq.
    rewrite !str_app_assoc in Heq.
    apply str_cancel_l, str_cancel_l, str_cancel_r, str_int_inj in Heq.
    apply Hm. symmetry. exact Heq.
  - intros dir n m H. rewrite touch_tuples. unfold tuples. apply map_ext_in.
    intros e Hin. destruct (String.eqb (ename e) n) eqn:E; [|reflexivity].
    apply String.eqb_eq in E. unfold tuple_of. rewrite (H e); [reflexivity| |exact E].
    apply filter_In in Hin as [Hin _].
    apply (Permutation_in _ (sort_name_perm _)), Hin.
Qed.

End CacheClaims.

Module ShellProofs.
Import Py Shell ShLex CacheProofs.

Lemma str_app_nil_r a : a ++ EmptyString = a.
Proof. induction a as [|c a IH]; cbn; [reflexivity|]. rewrite IH. reflexivity. Qed.

(** The body of a single-quoted [shlex_quote] text, up to its closing quote. *)
Lemma lex_quoted_body w s rest :
  lex InSQ (Some w) (replace_char SQ quote_escape s ++ String SQ rest) =
  lex Unq (Some (w ++ s)) rest.
Proof.
  revert w. induction s as [|c s IH]; intros w; cbn [replace_char].
  - cbn. rewrite str_app_nil_r. reflexivity.
  - destruct (Ascii.eqb c SQ) eqn:E.
    + apply Ascii.eqb_eq in E. subst c. cbn. rewrite IH.
      rewrite str_app_assoc. reflexivity.
    + cbn. rewrite E. unfold snoc. cbn [cur_str]. rewrite IH.
      rewrite str_app_assoc. reflexivity.
Qed.

Lemma lex_quote s rest :
  lex Unq None (shlex_quote s ++ rest) = lex Unq (Some s) rest.
Proof.
  unfold shlex_quote. cbn [append lex]. cbn [is_blank Ascii.eqb SQ].
  rewrite str_app_assoc. cbn [append]. apply (lex_quoted_body EmptyString).
Qed.

Lemma lex_quote_end s : lex Unq None (shlex_quote s) = Some [Word s].
Proof.
  rewrite <- (str_app_nil_r (shlex_quote s)). rewrite lex_quote. reflexivity.
Qed.


Fixpoint str_all (p : ascii -> bool) (s : string) : bool :=
  match s with
  | EmptyString => true
  | String c r => p c && str_all p r
  end.

Lemma word_char_facts c :
  is_word_char c = true ->
  is_blank c = false /\ Ascii.eqb c SQ = false /\ Ascii.eqb c DQ = false /\ is_op c = false.
Proof.
  destruct c as [[] [] [] [] [] [] [] []]; vm_compute; intros H;
    first [discriminate H | repeat split].
Qed.

Lemma lex_plain x w rest :
  str_all is_word_char w = true -> lex Unq (Some x) (w ++ rest) = lex Unq (Some (x ++ w)) rest.
Proof.
  revert x. induction w as [|c w IH]; intros x H; cbn [append].
  - rewrite str_app_nil_r. reflexivity.
  - cbn [str_all] in H. apply andb_prop in H as [Hc Hw].
    destruct (word_char_facts c Hc) as [B [S [D O]]].
    cbn [lex]. rewrite B, S, D, O, Hc. unfold snoc. cbn [cur_str].
    rewrite IH by exact Hw. rewrite str_app_assoc. reflexivity.
Qed.

Lemma lex_plain_start w rest :
  w <> EmptyString -> str_all is_word_char w = true ->
  lex Unq None (w ++ rest) = lex Unq (Some w) rest.
Proof.
  destruct w as [|c w]; [contradiction|]. intros _ H. cbn [str_all] in H.
  apply andb_prop in H as [Hc Hw]. destruct (word_char_facts c Hc) as [B [S [D O]]].
  cbn [append lex]. rewrite B, S, D, O, Hc. unfold snoc. cbn [cur_str].
  apply (lex_plain (String c EmptyString)), Hw.
Qed.

Lemma uint_digits d : str_all is_word_char (NilEmpty.string_of_uint d) = true.
Proof. induction d; cbn [NilEmpty.string_of_uint str_all]; try rewrite IHd; reflexivity. Qed.

Lemma str_int_word z : str_int z <> EmptyString /\ str_all is_word_char (str_int z) = true.
Proof.
  unfold str_int, NilZero.string_of_int, NilZero.string_of_uint.
  destruct (Z.to_int z) as [d|d]; destruct d; cbn [str_all];
    (split; [discriminate|]); try reflexivity;
    cbn [NilEmpty.string_of_uint str_all]; rewrite uint_digits; reflexivity.
Qed.

Lemma lex_str_int z rest : lex Unq None (str_int z ++ rest) = lex Unq (Some (str_int z)) rest.
Proof. apply lex_plain_start; apply str_int_word. Qed.


Ltac lex_run :=
  repeat first
    [ rewrite lex_quote_end
    | rewrite lex_quote
    | rewrite lex_str_int
    | progress (cbn -[str_int shlex_quote]) ].

(** [shlex_quote] round trip: for every string, the shell reads the quoted
    text back as one word equal to the string. *)
Theorem shlex_quote_round_trip (s : string) : sh_tokens (shlex_quote s) = Some [Word s].
Proof. apply lex_quote_end. Qed.

Lemma bwa_pipeline_tokens (threads : Z) (reference r1 r2 bam : string) :
  sh_tokens (bwa_pipeline_cmd threads reference r1 r2 bam) =
  Some [Word "bwa"; Word "mem"; Word "-t"; Word (str_int threads);
        Word reference; Word r1; Word r2; Op "|";
        Word "samtools"; Word "view"; Word "-@"; Word (str_int threads);
        Word "-bS"; Word "-"; Op ">"; Word bam].
Proof. unfold sh_tokens, bwa_pipeline_cmd. lex_run. reflexivity. Qed.

(** A command line of [shlex_quote]d arguments joined by spaces is read
    back by the shell as exactly those arguments, one word each. *)
Theorem shlex_quote_join (args : list string) :
  sh_tokens (join " " (map shlex_quote args)) = Some (map Word args).
Proof.
  unfold sh_tokens. induction args as [|a [|b args] IH]; [reflexivity|apply lex_quote_end|].
  change (join " " (map shlex_quote (a :: b :: args)))
    with (shlex_quote a ++ " " ++ join " " (map shlex_quote (b :: args))).
  rewrite lex_quote. cbn -[shlex_quote join map]. rewrite IH. reflexivity.
Qed.

Lemma fastq_split_tokens (threads : Z) (out1 out2 name_bam : string) :
  sh_tokens (fastq_split_cmd threads out1 out2 name_bam) =
  Some [Word "samtools"; Word "fastq"; Word "-@"; Word (str_int threads); Word "-n";
        Word "-1"; Word out1; Word "-2"; Word out2;
        Word "-0"; Word "/dev/null"; Word "-s"; Word "/dev/null"; Word name_bam].
Proof. unfold sh_tokens, fastq_split_cmd. lex_run. reflexivity. Qed.

Definition bash_script (argv : list string) : option string :=
  match argv with
  | ["bash"; "-lc"; sc] => Some sc
  | _ => None
  end.

Definition script_tokens (runs : list (list string)) : list (option (list token)) :=
  flat_map (fun argv => match bash_script argv with Some sc => [sh_tokens sc] | None => [] end)
           runs.
(** The three [bash -lc] scripts [map_and_separate] runs are read by the
    shell as exactly the intended words, with a pipe and a redirection in
    the first one only, whatever characters the reference, read and output
    paths contain. *)
Theorem map_and_separate_script_tokens (path_join : string -> string -> string)
    (bwt_exists : bool) (reference r1 r2 outdir : string) (threads : Z) :
  script_tokens (map_and_separate_runs path_join bwt_exists reference r1 r2 outdir threads) =
  [ Some [Word "bwa"; Word "mem"; Word "-t"; Word (str_int threads);
          Word reference; Word r1; Word r2; Op "|";
          Word "samtools"; Word "view"; Word "-@"; Word (str_int threads);
          Word "-bS"; Word "-"; Op ">"; Word (path_join outdir "aln.bam")];
    Some [Word "samtools"; Word "fastq"; Word "-@"; Word (str_int threads); Word "-n";
          Word "-1"; Word (path_join outdir "mapped_R1.fq.gz");
          Word "-2"; Word (path_join outdir "mapped_R2.fq.gz");
          Word "-0"; Word "/dev/null"; Word "-s"; Word "/dev/null";
          Word (path_join outdir "mapped.name.bam")];
    Some [Word "samtools"; Word "fastq"; Word "-@"; Word (str_int threads); Word "-n";
          Word "-1"; Word (path_join outdir "unmapped_R1.fq.gz");
          Word "-2"; Word (path_join outdir "unmapped_R2.fq.gz");
          Word "-0"; Word "/dev/null"; Word "-s"; Word "/dev/null";
          Word (path_join outdir "unmapped.name.bam")] ].
Proof.
  unfold map_and_separate_runs, script_tokens.
  rewrite flat_map_app.
  replace (flat_map _ (if bwt_exists then [] else [["bwa"; "index"; reference]])) with (@nil (option (list token)))
    by (destruct bwt_exists; reflexivity).
  cbn [app flat_map bash_script].
  rewrite bwa_pipeline_tokens, !fastq_split_tokens. reflexivity.
Qed.
End ShellProofs.

Module ReadIdProofs.
Import Py Reads ShellProofs.

Definition no_space (w : string) : bool := str_all (fun c => negb (is_space c)) w.

Lemma split_by_words p s x :
  In x (split_by p s) -> str_all (fun c => negb (p c)) x = true.
Proof.
  revert x. induction s as [|c s IH]; intros x; cbn [split_by].
  - intros [<-|[]]. reflexivity.
  - destruct (p c) eqn:E.
    + intros [<-|H]; [reflexivity|]. apply IH, H.
    + destruct (split_by p s) as [|y ys] eqn:S.
      * intros [<-|[]]. cbn. rewrite E. reflexivity.
      * intros [<-|H].
        -- cbn [str_all]. rewrite E. apply IH. left. reflexivity.
        -- apply IH. right. exact H.
Qed.

Lemma split_by_plain p w r c :
  str_all (fun c => negb (p c)) w = true -> p c = true ->
  split_by p (w ++ String c r) = w :: split_by p r.
Proof.
  intros Hw Hc. induction w as [|d w IH]; cbn [append split_by].
  - rewrite Hc. reflexivity.
  - cbn [str_all] in Hw. apply andb_prop in Hw as [Hd Hw].
    apply negb_true_iff in Hd. rewrite IH by exact Hw. rewrite Hd. reflexivity.
Qed.

Lemma split_by_single p w :
  str_all (fun c => negb (p c)) w = true -> split_by p w = [w].
Proof.
  induction w as [|d w IH]; intros Hw; [reflexivity|]. cbn [str_all] in Hw.
  apply andb_prop in Hw as [Hd Hw]. apply negb_true_iff in Hd.
  cbn [split_by]. rewrite IH by exact Hw. rewrite Hd. reflexivity.
Qed.

Lemma rstrip_plain p w r :
  str_all (fun c => negb (p c)) w = true -> rstrip_by p (w ++ r) = w ++ rstrip_by p r.
Proof.
  induction w as [|d w IH]; intros Hw; [reflexivity|]. cbn [str_all] in Hw.
  apply andb_prop in Hw as [Hd Hw]. apply negb_true_iff in Hd.
  cbn [append rstrip_by]. rewrite IH by exact Hw. rewrite Hd.
  destruct (w ++ rstrip_by p r); reflexivity.
Qed.

Lemma rstrip_space_start p c r :
  p c = true -> rstrip_by p (String c r) = EmptyString \/
                exists r', rstrip_by p (String c r) = String c r'.
Proof.
  intros Hc. cbn [rstrip_by]. destruct (rstrip_by p r); [rewrite Hc; left; reflexivity|].
  right. eexists. reflexivity.
Qed.

Lemma normalize_word w :
  w <> EmptyString -> no_space w = true -> startswith "@" w = false ->
  normalize_read_id w = Ok w.
Proof.
  intros Hne Hw Hat. unfold normalize_read_id, strip.
  destruct w as [|c w']; [contradiction|].
  assert (Hc : is_space c = false).
  { unfold no_space in Hw. cbn [str_all] in Hw. apply andb_prop in Hw as [Hc _].
    apply negb_true_iff, Hc. }
  cbn [lstrip_by]. rewrite Hc.
  rewrite <- (ShellProofs.str_app_nil_r (String c w')), rstrip_plain by exact Hw.
  cbn [rstrip_by]. rewrite ShellProofs.str_app_nil_r, Hat.
  unfold split_ws. rewrite split_by_single by exact Hw. cbn [filter].
  destruct (String.eqb (String c w') EmptyString) eqn:E; [discriminate E|]. reflexivity.
Qed.

Lemma normalize_header w rest :
  w <> EmptyString -> no_space w = true ->
  (rest = EmptyString \/ exists c r, rest = String c r /\ is_space c = true) ->
  normalize_read_id (String "@"%char (w ++ rest)) = Ok w.
Proof.
  intros Hne Hw Hrest. unfold normalize_read_id, strip.
  cbn [lstrip_by]. replace (is_space "@"%char) with false by reflexivity.
  change (String "@"%char (w ++ rest)) with (String "@"%char EmptyString ++ (w ++ rest)).
  rewrite rstrip_plain by reflexivity. rewrite rstrip_plain by exact Hw.
  cbn [append startswith String.prefix drop1].
  destruct (ascii_dec "@"%char "@"%char) as [_|N]; [|contradiction N; reflexivity].
  replace (String.prefix EmptyString (w ++ rstrip_by is_space rest)) with true
    by (destruct (w ++ rstrip_by is_space rest); reflexivity).
  unfold split_ws.
  assert (Hsplit : exists tl, split_by is_space (w ++ rstrip_by is_space rest) = w :: tl).
  { destruct Hrest as [->|[c [r [-> Hc]]]].
    - cbn [rstrip_by]. rewrite ShellProofs.str_app_nil_r, split_by_single by exact Hw.
      eexists. reflexivity.
    - destruct (rstrip_space_start is_space c r Hc) as [E|[r' E]]; rewrite E.
      + rewrite ShellProofs.str_app_nil_r, split_by_single by exact Hw. eexists. reflexivity.
      + rewrite split_by_plain by assumption. eexists. reflexivity. }
  destruct Hsplit as [tl ->]. cbn [filter].
  destruct (String.eqb w EmptyString) eqn:E; [apply String.eqb_eq in E; contradiction|].
  reflexivity.
Qed.

Lemma split_ws_words s x : In x (split_ws s) -> x <> EmptyString /\ no_space x = true.
Proof.
  unfold split_ws. intros H. apply filter_In in H as [H Hne]. split.
  - intros ->. discriminate Hne.
  - apply (split_by_words is_space s x H).
Qed.

End ReadIdProofs.

Module RowFacts.
Import Py Reads GC Agg Writer AggBasics AccInv SortFacts WriterProofs.

Lemma Z2Qc_succ n : Z2Qc (n + 1) = Z2Qc n + 1.
Proof.
  apply Qc_is_canon. unfold Z2Qc, Qcplus. cbn [this Q2Qc]. rewrite !Qred_correct.
  rewrite inject_Z_plus. reflexivity.
Qed.

Lemma div_le_one s n : 0 <= s -> s <= Z2Qc n -> (0 < n)%Z -> 0 <= s / Z2Qc n /\ s / Z2Qc n <= 1.
Proof.
  intros H0 H1 Hn. unfold Qcle, Qcdiv, Qcmult, Qcinv, Z2Qc in *. cbn [this Q2Qc] in *.
  rewrite !Qred_correct in *.
  assert (Hpos : (0 < inject_Z n)%Q).
  { change 0%Q with (inject_Z 0). rewrite <- Zlt_Qlt. lia. }
  split.
  - apply Qle_shift_div_l; [exact Hpos|]. rewrite Qmult_0_l. exact H0.
  - apply Qle_shift_div_r; [exact Hpos|]. rewrite Qmult_1_l. exact H1.
Qed.

Lemma frac_bounds a b : (0 <= a)%Z -> (a <= b)%Z -> (0 < b)%Z ->
  0 <= Q2Qc (inject_Z a / inject_Z b) /\ Q2Qc (inject_Z a / inject_Z b) <= 1.
Proof.
  intros H0 H1 H2. unfold Qcle. cbn [this Q2Qc]. rewrite !Qred_correct.
  assert (Hpos : (0 < inject_Z b)%Q).
  { change 0%Q with (inject_Z 0). rewrite <- Zlt_Qlt. lia. }
  split.
  - apply Qle_shift_div_l; [exact Hpos|]. rewrite Qmult_0_l.
    change 0%Q with (inject_Z 0). rewrite <- Zle_Qle. exact H0.
  - apply Qle_shift_div_r; [exact Hpos|]. rewrite Qmult_1_l. rewrite <- Zle_Qle. exact H1.
Qed.

Lemma Qc_0_le_1 : (0 <= 1)%Qc.
Proof. unfold Qcle. cbn. discriminate. Qed.

Lemma count_gc_le s : (count "G"%char s + count "C"%char s <= String.length s)%nat.
Proof.
  induction s as [|c s IH]; cbn [count String.length]; [lia|].
  destruct (Ascii.eqb "G"%char c) eqn:G; destruct (Ascii.eqb "C"%char c) eqn:C; try lia.
  apply Ascii.eqb_eq in G, C. rewrite <- C in G. discriminate G.
Qed.

Lemma gc_fraction_bounds s : 0 <= gc_fraction s /\ gc_fraction s <= 1.
Proof.
  unfold gc_fraction. destruct (upper (strip s)) as [|c t] eqn:E.
  - split; [apply Qcle_refl | apply Qc_0_le_1].
  - apply frac_bounds; [lia| |cbn [String.length]; lia].
    apply Nat2Z.inj_le, count_gc_le.
Qed.

(** The GC columns stay within their sample count. *)
Definition gc_ok (st : acc) : Prop :=
  forall l, (0 <= Dict.get_default 0%Z (gc_n st) l)%Z /\
            0 <= Dict.get_default 0 (gc_sum st) l /\
            Dict.get_default 0 (gc_sum st) l <= Z2Qc (Dict.get_default 0%Z (gc_n st) l).

Lemma add_read_gc_ok fk l g st :
  0 <= g -> g <= 1 -> gc_ok st -> gc_ok (add_read fk l g st).
Proof.
  intros G0 G1 H l0. specialize (H l0). unfold add_read, Dict.get_default in *.
  cbn [gc_sum gc_n]. rewrite !DictFacts.get_set.
  destruct (String.eqb l0 l) eqn:E; [|exact H].
  apply String.eqb_eq in E. subst l0.
  destruct H as [Hn [Hs0 Hs1]]. split; [lia|]. split.
  - rewrite <- (Qcplus_0_l 0). apply Qcplus_le_compat; assumption.
  - rewrite Z2Qc_succ. apply Qcplus_le_compat; assumption.
Qed.

Lemma ingest_cases r2t t2l fk h s st st' :
  ingest r2t t2l fk h s st = Ok st' ->
  st' = st \/ exists l, st' = add_read fk l (gc_fraction s) st.
Proof.
  unfold ingest. destruct (normalize_read_id h); cbn [bind]; [|discriminate].
  destruct (lookup_lineage r2t t2l a) as [l|]; [|intros [= <-]; left; reflexivity].
  destruct (String.eqb l EmptyString); intros [= <-]; [left; reflexivity|].
  right. exists l. reflexivity.
Qed.

Lemma process_gc_ok lines r2t t2l fk : forall st st',
  gc_ok st -> process_fastq lines r2t t2l fk st = Ok st' -> gc_ok st'.
Proof.
  remember (List.length lines) as n eqn:Hn. revert lines Hn.
  induction n as [n IH] using lt_wf_ind. intros lines Hn st st' Hg.
  destruct lines as [|h [|s [|p [|q rest]]]]; cbn [process_fastq];
    try (intros [= <-]; exact Hg).
  destruct (ingest r2t t2l fk h s st) as [st1|e] eqn:E; cbn [bind]; [|discriminate].
  apply (IH (List.length rest)); [subst n; cbn; lia | reflexivity |].
  destruct (ingest_cases _ _ _ _ _ _ _ E) as [->|[l ->]]; [exact Hg|].
  destruct (gc_fraction_bounds s). apply add_read_gc_ok; assumption.
Qed.

Lemma reachable_gc_ok st : reachable st -> gc_ok st.
Proof.
  induction 1 as [|lines r2t t2l fk st st' _ IH Hp].
  - intros l. unfold Dict.get_default. cbn. split; [lia|]. split; apply Qcle_refl.
  - eapply process_gc_ok; eassumption.
Qed.

Lemma avg_gc_bounds st l : gc_ok st -> 0 <= avg_gc_of st l /\ avg_gc_of st l <= 1.
Proof.
  intros H. destruct (H l) as [Hn [Hs0 Hs1]]. unfold avg_gc_of.
  destruct (Z.eqb _ 0) eqn:E; [split; [apply Qcle_refl | apply Qc_0_le_1]|].
  apply Z.eqb_neq in E. apply div_le_one; [exact Hs0 | exact Hs1 | lia].
Qed.

Lemma filter_keep_mono m1 m2 l :
  (m1 <= m2)%Z -> filter (keep m2) (filter (keep m1) l) = filter (keep m2) l.
Proof.
  intros Hm. rewrite filter_and. apply filter_ext_eq. intros [k c]. unfold keep. cbn [snd].
  destruct (Z.leb m2 (total c)) eqn:E2; [|apply andb_false_r].
  apply Z.leb_le in E2. replace (Z.leb m1 (total c)) with true by (symmetry; apply Z.leb_le; lia).
  reflexivity.
Qed.

End RowFacts.

Module ProcessFacts.
Import Py Reads GC Agg AggBasics.

(** The lineage a record is counted under: its normalised read id, looked
    up in the two maps, when that gives a non-empty lineage. *)
Definition resolves_to (r2t t2l : Dict.dict string) (r : fq_record) : option string :=
  match normalize_read_id (hdr r) with
  | Ok read_id =>
      match lookup_lineage r2t t2l read_id with
      | Some l => if String.eqb l EmptyString then None else Some l
      | None => None
      end
  | Raise _ => None
  end.

Definition hits (r2t t2l : Dict.dict string) (recs : list fq_record) (l : string)
  : list fq_record :=
  filter (fun r => match resolves_to r2t t2l r with
                   | Some l' => String.eqb l' l
                   | None => false
                   end) recs.

Definition counts_of (st : acc) (l : string) : counts_t :=
  Dict.get_default zero_counts (counts st) l.

Definition fk_share (fk target : file_key) (n : Z) : Z :=
  match fk, target with
  | Mapped, Mapped | Unmapped, Unmapped => n
  | _, _ => 0%Z
  end.

Lemma ingest_resolves r2t t2l fk r st st' :
  ingest r2t t2l fk (hdr r) (sq r) st = Ok st' ->
  st' = match resolves_to r2t t2l r with
        | Some l => add_read fk l (gc_fraction (sq r)) st
        | None => st
        end.
Proof.
  unfold ingest, resolves_to. destruct (normalize_read_id (hdr r)); cbn [bind]; [|discriminate].
  destruct (lookup_lineage r2t t2l a) as [l|]; [|intros [= <-]; reflexivity].
  destruct (String.eqb l EmptyString); intros [= <-]; reflexivity.
Qed.

Definition lineage_fields (st : acc) (l : string) : Z * Z * Z * Z * Qc :=
  (total (counts_of st l), mapped (counts_of st l), unmapped (counts_of st l),
   Dict.get_default 0%Z (gc_n st) l, Dict.get_default 0 (gc_sum st) l).

Definition bumped (fk : file_key) (n : Z) (g : Qc) (v : Z * Z * Z * Z * Qc) : Z * Z * Z * Z * Qc :=
  match v with
  | (t, m, u, k, s) =>
      ((t + n)%Z, (m + fk_share fk Mapped n)%Z, (u + fk_share fk Unmapped n)%Z, (k + n)%Z, s + g)
  end.

Lemma add_read_fields fk l' g st l :
  lineage_fields (add_read fk l' g st) l =
  if String.eqb l l' then bumped fk 1 g (lineage_fields st l) else lineage_fields st l.
Proof.
  unfold lineage_fields, counts_of, add_read, Dict.get_default. cbn [counts gc_n gc_sum].
  rewrite !DictFacts.get_set. destruct (String.eqb l l') eqn:E; [|reflexivity].
  apply String.eqb_eq in E. subst l'.
  destruct (Dict.get (counts st) l) as [c|]; destruct fk; cbn; rewrite ?Z.add_0_r; reflexivity.
Qed.

Lemma hits_cons r2t t2l r recs l :
  hits r2t t2l (r :: recs) l =
  match resolves_to r2t t2l r with
  | Some l' => if String.eqb l' l then r :: hits r2t t2l recs l else hits r2t t2l recs l
  | None => hits r2t t2l recs l
  end.
Proof.
  unfold hits. cbn [filter].
  destruct (resolves_to r2t t2l r); [destruct (String.eqb _ _)|]; reflexivity.
Qed.

Lemma bumped_zero fk v : bumped fk 0 0 v = v.
Proof.
  destruct v as [[[[t m] u] k] s]. destruct fk; cbn [bumped fk_share];
    rewrite !Z.add_0_r, Qcplus_0_r; reflexivity.
Qed.

Lemma bumped_bumped fk n1 n2 g1 g2 v :
  bumped fk n2 g2 (bumped fk n1 g1 v) = bumped fk (n1 + n2) (g1 + g2) v.
Proof.
  destruct v as [[[[t m] u] k] s]. destruct fk; cbn [bumped fk_share];
    rewrite <- !Z.add_assoc, <- Qcplus_assoc; reflexivity.
Qed.

Lemma fold_fields r2t t2l fk recs : forall st st' l,
  fold_result (record_step r2t t2l fk) recs st = Ok st' ->
  lineage_fields st' l =
  bumped fk (Z.of_nat (List.length (hits r2t t2l recs l)))
         (fold_right Qcplus 0 (map (fun r => gc_fraction (sq r)) (hits r2t t2l recs l)))
         (lineage_fields st l).
Proof.
  induction recs as [|r recs IH]; intros st st' l.
  - cbn [fold_result]. intros [= <-]. exact (eq_sym (bumped_zero fk (lineage_fields st l))).
  - cbn [fold_result]. unfold record_step at 1.
    destruct (ingest r2t t2l fk (hdr r) (sq r) st) as [s1|e] eqn:E; cbn [bind]; [|discriminate].
    intros H. rewrite (IH s1 st' l H). apply ingest_resolves in E. subst s1.
    rewrite hits_cons.
    destruct (resolves_to r2t t2l r) as [l'|]; [|reflexivity].
    rewrite add_read_fields. rewrite (String.eqb_sym l l').
    destruct (String.eqb l' l); [|reflexivity].
    rewrite bumped_bumped. cbn [List.length map fold_right]. f_equal. lia.
Qed.

End ProcessFacts.

Module DemoStates.
Import Py Reads GC Agg AggBasics.

Definition demo_r2t : Dict.dict string := Dict.set Dict.empty "r1" "10".
Definition demo_t2l : Dict.dict string := Dict.set Dict.empty "10" "g__A".

End DemoStates.

Module AggExtra.
Import Py Reads GC Agg Writer AggBasics AccInv SortFacts WriterProofs RowFacts ProcessFacts DemoStates.

Lemma write_csv_state report kraken mapped_fastq unmapped_fastq co min_reads rows :
  write_attrition_csv report kraken mapped_fastq unmapped_fastq co min_reads = Ok rows ->
  exists st, reachable st /\ attrition_rows st min_reads = Ok rows /\
    forall m, write_attrition_csv report kraken mapped_fastq unmapped_fastq co m = attrition_rows st m.
Proof.
  unfold write_attrition_csv.
  destruct (load_kraken_read_map kraken co) as [r2t|e]; cbn [bind]; [|discriminate].
  destruct (process_fastq mapped_fastq _ _ Mapped empty_acc) as [st1|e] eqn:E1; cbn [bind];
    [|discriminate].
  destruct (process_fastq unmapped_fastq _ _ Unmapped st1) as [st2|e] eqn:E2; cbn [bind];
    [|discriminate].
  intros H. exists st2. split; [|split; [exact H|intros m; reflexivity]].
  eapply reach_pass; [eapply reach_pass; [apply reach_empty|exact E1]|exact E2].
Qed.

Lemma rows_avg_gc st min_reads rows :
  reachable st -> attrition_rows st min_reads = Ok rows ->
  forall r, In r rows -> 0 <= o_avg_gc r /\ o_avg_gc r <= 1.
Proof.
  intros Hr Hok. pose proof (reachable_wf st Hr) as Hwf.
  rewrite attrition_rows_ok in Hok by exact Hwf. injection Hok as <-.
  intros r Hin. apply in_map_iff in Hin as [[l c] [<- _]].
  cbn [row_of o_avg_gc fst]. apply avg_gc_bounds, reachable_gc_ok, Hr.
Qed.

Lemma rows_threshold st m1 m2 rows :
  reachable st -> (m1 <= m2)%Z -> attrition_rows st m1 = Ok rows ->
  attrition_rows st m2 = Ok (filter (fun r => Z.leb m2 (o_total r)) rows).
Proof.
  intros Hr Hm Hok. pose proof (reachable_wf st Hr) as Hwf.
  rewrite attrition_rows_ok in Hok by exact Hwf. injection Hok as <-.
  rewrite attrition_rows_ok by exact Hwf. f_equal.
  rewrite filter_map_comm. f_equal.
  rewrite <- (filter_keep_mono m1 m2 _ Hm). apply filter_ext_eq. intros [k c]. reflexivity.
Qed.

Definition demo_kraken : list string :=
  [LineageTests.tab_line ["C"; "r1"; "1386"]; LineageTests.tab_line ["C"; "r2"; "1386"];
   LineageTests.tab_line ["C"; "r3"; "1423"]].

Definition demo_mapped : list string :=
  flat_map record_lines [AggClaims.rec "r1" "GGCA"; AggClaims.rec "r3" "GC"].

Definition demo_unmapped : list string :=
  flat_map record_lines [AggClaims.rec "r2" "ATAT"].

Definition demo_rows (min_reads : Z) : list out_row :=
  match write_attrition_csv LineageTests.sample_report demo_kraken demo_mapped demo_unmapped
          true min_reads with
  | Ok rows => rows
  | Raise _ => []
  end.

(** In every table a run of [write_attrition_csv] produces, each row's
    average GC content lies within [0, 1]. *)
Theorem attrition_row_avg_gc (report kraken mapped_fastq unmapped_fastq : list string)
    (classified_only : bool) (min_reads : Z) (rows : list out_row)
    (Hok : write_attrition_csv report kraken mapped_fastq unmapped_fastq classified_only min_reads
           = Ok rows) :
  forall r, In r rows -> 0 <= o_avg_gc r /\ o_avg_gc r <= 1.
Proof.
  destruct (write_csv_state _ _ _ _ _ _ _ Hok) as (st & Hr & Hrows & _).
  exact (rows_avg_gc st min_reads rows Hr Hrows).
Qed.

Lemma attrition_row_avg_gc_witness :
  write_attrition_csv LineageTests.sample_report demo_kraken demo_mapped demo_unmapped true 1
    = Ok (demo_rows 1) /\
  forall r, In r (demo_rows 1) -> 0 <= o_avg_gc r /\ o_avg_gc r <= 1.
Proof.
  assert (H : write_attrition_csv LineageTests.sample_report demo_kraken demo_mapped demo_unmapped
                true 1 = Ok (demo_rows 1)) by (vm_compute; reflexivity).
  split; [exact H|]. exact (attrition_row_avg_gc _ _ _ _ _ _ _ H).
Defined.

(** Raising [min_reads] only drops rows: the table a run writes with
    threshold [m2] is the table the same run writes with any lower
    threshold [m1], without the rows whose total is below [m2], in the
    same order. *)
Theorem attrition_threshold_filter (report kraken mapped_fastq unmapped_fastq : list string)
    (classified_only : bool) (m1 m2 : Z) (rows : list out_row) (Hm : (m1 <= m2)%Z)
    (Hok : write_attrition_csv report kraken mapped_fastq unmapped_fastq classified_only m1
           = Ok rows) :
  write_attrition_csv report kraken mapped_fastq unmapped_fastq classified_only m2 =
    Ok (filter (fun r => Z.leb m2 (o_total r)) rows).
Proof.
  destruct (write_csv_state _ _ _ _ _ _ _ Hok) as (st & Hr & Hrows & Hall).
  rewrite Hall. exact (rows_threshold st m1 m2 rows Hr Hm Hrows).
Qed.

Lemma attrition_threshold_filter_witness :
  write_attrition_csv LineageTests.sample_report demo_kraken demo_mapped demo_unmapped true 2 =
    Ok (filter (fun r => Z.leb 2 (o_total r)) (demo_rows 0)).
Proof.
  apply (attrition_threshold_filter _ _ _ _ _ 0 2 (demo_rows 0)); [lia|vm_compute; reflexivity].
Defined.

(** [gc_fraction] of any string, whitespace-only or empty included, lies
    within [0, 1]. *)
Theorem gc_fraction_unit_interval (s : string) : 0 <= gc_fraction s /\ gc_fraction s <= 1.
Proof.
  unfold gc_fraction. destruct (upper (strip s)) as [|c t] eqn:E.
  - split; [apply Qcle_refl | apply Qc_0_le_1].
  - apply frac_bounds; [lia| |cbn [String.length]; lia].
    apply Nat2Z.inj_le, count_gc_le.
Qed.

(** What one pass of [process_fastq] adds, lineage by lineage, over a
    file of complete 4-line records followed by fewer than four trailing
    lines: each record whose read id resolves to a non-empty lineage adds
    1 to that lineage's total, to its [file_key] count and to its GC
    sample count, and its [gc_fraction] to its GC sum; the other records
    and the trailing lines change nothing. *)
Theorem process_fastq_per_lineage (r2t t2l : Dict.dict string) (fk : file_key)
    (recs : list fq_record) (tail : list string) (st st' : acc)
    (Htail : (List.length tail < 4)%nat)
    (Hok : process_fastq (app (flat_map record_lines recs) tail) r2t t2l fk st = Ok st')
    (l : string) :
  let n := Z.of_nat (List.length (hits r2t t2l recs l)) in
  total (counts_of st' l) = (total (counts_of st l) + n)%Z /\
  mapped (counts_of st' l) = (mapped (counts_of st l) + fk_share fk Mapped n)%Z /\
  unmapped (counts_of st' l) = (unmapped (counts_of st l) + fk_share fk Unmapped n)%Z /\
  Dict.get_default 0%Z (gc_n st') l = (Dict.get_default 0%Z (gc_n st) l + n)%Z /\
  Dict.get_default 0 (gc_sum st') l =
    Dict.get_default 0 (gc_sum st) l +
    fold_right Qcplus 0 (map (fun r => gc_fraction (sq r)) (hits r2t t2l recs l)).
Proof.
  rewrite process_records in Hok.
  destruct (fold_result (record_step r2t t2l fk) recs st) as [s1|e] eqn:F; cbn [bind] in Hok;
    [|discriminate].
  rewrite process_short in Hok by exact Htail. injection Hok as <-.
  pose proof (fold_fields r2t t2l fk recs st s1 l F) as E.
  unfold lineage_fields in E. cbn [bumped] in E.
  injection E as E1 E2 E3 E4 E5. cbn zeta. repeat split; assumption.
Qed.

Lemma process_fastq_per_lineage_witness :
  (List.length [String "@"%char EmptyString] < 4)%nat /\
  process_fastq (app (flat_map record_lines [AggClaims.rec "r1" "GC"; AggClaims.rec "r2" "AT"])
                     [String "@"%char EmptyString])
                demo_r2t demo_t2l Mapped empty_acc =
    Ok (add_read Mapped "g__A" 1 empty_acc) /\
  total (counts_of (add_read Mapped "g__A" 1 empty_acc) "g__A") = 1%Z.
Proof.
  assert (H : process_fastq (app (flat_map record_lines [AggClaims.rec "r1" "GC"; AggClaims.rec "r2" "AT"])
                     [String "@"%char EmptyString])
                demo_r2t demo_t2l Mapped empty_acc =
              Ok (add_read Mapped "g__A" 1 empty_acc)) by (vm_compute; reflexivity).
  split; [cbn; lia|]. split; [exact H|].
  destruct (process_fastq_per_lineage demo_r2t demo_t2l Mapped
              [AggClaims.rec "r1" "GC"; AggClaims.rec "r2" "AT"] [String "@"%char EmptyString]
              empty_acc _ (ltac:(cbn; lia)) H "g__A") as [E _].
  rewrite E. vm_compute. reflexivity.
Defined.

End AggExtra.

Module ReadIdExtra.
Import Py Reads ShellProofs ReadIdProofs.

(** A read id that [normalize_read_id] returns is a non-empty word with
    no whitespace in it; when it does not itself start with '@', it is a
    fixed point of [normalize_read_id]. *)
Theorem normalize_read_id_output (s w : string) (Hok : normalize_read_id s = Ok w) :
  w <> EmptyString /\ no_space w = true /\
  (startswith "@" w = false -> normalize_read_id w = Ok w).
Proof.
  unfold normalize_read_id in Hok.
  destruct (split_ws _) as [|x xs] eqn:E in Hok; [discriminate|]. injection Hok as <-.
  destruct (split_ws_words _ x (ltac:(rewrite E; left; reflexivity))) as [Hne Hns].
  split; [exact Hne|]. split; [exact Hns|]. intros Ha. apply normalize_word; assumption.
Qed.

Lemma normalize_read_id_output_witness :
  normalize_read_id "  @r1 1:N:0  " = Ok "r1" /\
  ("r1" <> EmptyString /\ no_space "r1" = true /\
   (startswith "@" "r1" = false -> normalize_read_id "r1" = Ok "r1")).
Proof.
  assert (H : normalize_read_id "  @r1 1:N:0  " = Ok "r1") by (vm_compute; reflexivity).
  split; [exact H|]. exact (normalize_read_id_output _ _ H).
Defined.

(** The id of a FASTQ header line ("@" then the id, then nothing or
    whitespace and a comment) and the same id as it stands in the
    Kraken output column normalize to the same key, the id itself. *)
Theorem fastq_kraken_ids_agree (w rest : string)
    (Hne : w <> EmptyString) (Hns : no_space w = true) (Ha : startswith "@" w = false)
    (Hrest : rest = EmptyString \/ exists c r, rest = String c r /\ is_space c = true) :
  normalize_read_id w = Ok w /\ normalize_read_id (String "@"%char (w ++ rest)) = Ok w.
Proof.
  split; [apply normalize_word | apply normalize_header]; assumption.
Qed.

Lemma fastq_kraken_ids_agree_witness :
  normalize_read_id "r1" = Ok "r1" /\ normalize_read_id "@r1 1:N:0" = Ok "r1".
Proof.
  apply (fastq_kraken_ids_agree "r1" " 1:N:0");
    [discriminate | reflexivity | reflexivity | right; exists " "%char, "1:N:0"; split; reflexivity].
Defined.

End ReadIdExtra.

Module KrakenExtra.
Import Py Reads DictFacts.

(** [line] is a Kraken output line that the loop of
    [load_kraken_read_map] records as [read_to_taxid[k] = t]. *)
Definition accepts (classified_only : bool) (line k t : string) : Prop :=
  let parts := split TAB (rstrip_nl line) in
  strip line <> EmptyString /\ (3 <= List.length parts)%nat /\
  (classified_only = false \/ nth 0 parts EmptyString = "C") /\
  normalize_read_id (nth 1 parts EmptyString) = Ok k /\
  nth 2 parts EmptyString = t.

Lemma fold_result_snoc {S X} (f : S -> X -> result S) xs x s :
  fold_result f (app xs [x]) s = let! s' := fold_result f xs s in f s' x.
Proof.
  revert s. induction xs as [|y xs IH]; intros s; cbn [app fold_result].
  - cbn [bind]. destruct (f s x); reflexivity.
  - destruct (f s y); cbn [bind]; [apply IH | reflexivity].
Qed.

Lemma accepts_functional co line k t k' t' :
  accepts co line k t -> accepts co line k' t' -> k = k' /\ t = t'.
Proof.
  intros (_ & _ & _ & Hk & Ht) (_ & _ & _ & Hk' & Ht').
  rewrite Hk in Hk'. injection Hk' as ->. subst. split; reflexivity.
Qed.

Lemma kraken_step_cases co m0 x m :
  kraken_step co m0 x = Ok m ->
  (m = m0 /\ forall k t, ~ accepts co x k t) \/
  exists k t, accepts co x k t /\ m = Dict.set m0 k t.
Proof.
  unfold kraken_step, accepts.
  destruct (String.eqb (strip x) EmptyString) eqn:Eb.
  { intros [=->]. left. split; [reflexivity|]. intros k t (H & _).
    apply String.eqb_eq in Eb. contradiction. }
  apply String.eqb_neq in Eb.
  destruct (Nat.ltb (List.length (split TAB (rstrip_nl x))) 3) eqn:El.
  { intros [=->]. left. split; [reflexivity|]. intros k t (_ & H & _).
    apply Nat.ltb_lt in El. lia. }
  apply Nat.ltb_ge in El.
  destruct (co && negb (String.eqb (nth 0 (split TAB (rstrip_nl x)) EmptyString) "C")) eqn:Ec.
  { intros [=->]. left. split; [reflexivity|]. intros k t (_ & _ & [H|H] & _).
    - subst co. discriminate Ec.
    - rewrite H in Ec. rewrite andb_false_r in Ec. discriminate Ec. }
  destruct (normalize_read_id (nth 1 (split TAB (rstrip_nl x)) EmptyString)) as [k|e] eqn:En;
    cbn [bind]; [|discriminate].
  intros [=<-]. right. exists k, (nth 2 (split TAB (rstrip_nl x)) EmptyString).
  split; [|reflexivity]. repeat split; try assumption.
  destruct co; [right|left; reflexivity].
  cbn in Ec. apply negb_false_iff, String.eqb_eq in Ec. exact Ec.
Qed.

Lemma split_last {A} (pre post xs : list A) line x :
  app pre (line :: post) = app xs [x] ->
  (post = [] /\ pre = xs /\ line = x) \/
  exists post', post = app post' [x] /\ xs = app pre (line :: post').
Proof.
  destruct post as [|b q] eqn:Ep; [|destruct (@exists_last _ (b :: q) ltac:(discriminate)) as (p' & a & E);
    rewrite E; clear Ep E]; intros H.
  - left. change (line :: []) with [line] in H. apply app_inj_tail in H as [-> ->]. auto.
  - right. exists p'. rewrite app_comm_cons, app_assoc in H.
    apply app_inj_tail in H as [-> ->]. split; reflexivity.
Qed.

(** The map [load_kraken_read_map] builds holds [k -> t] exactly when
    some line of the file is a recorded line for read [k] with taxid [t]
    and no later line is recorded for [k]: the last classification of a
    read wins, and every entry comes from such a line (with
    [classified_only], from a line whose status column is "C"). *)
Theorem load_kraken_read_map_entry (lines : list string) (co : bool)
    (m : Dict.dict string) (Hok : load_kraken_read_map lines co = Ok m) (k t : string) :
  Dict.get m k = Some t <->
  exists pre line post, lines = app pre (line :: post) /\ accepts co line k t /\
    forall line' t', In line' post -> ~ accepts co line' k t'.
Proof.
  unfold load_kraken_read_map in Hok. revert m Hok.
  induction lines as [|x lines IH] using rev_ind; intros m Hok.
  - cbn in Hok. injection Hok as <-. split; [discriminate|].
    intros (pre & line & post & H & _). destruct pre; discriminate H.
  - rewrite fold_result_snoc in Hok.
    destruct (fold_result (kraken_step co) lines Dict.empty) as [m0|e] eqn:F;
      cbn [bind] in Hok; [|discriminate].
    specialize (IH m0 eq_refl).
    destruct (kraken_step_cases co m0 x m Hok) as [[-> Hno]|(k' & t' & Hacc & ->)].
    + rewrite IH. split.
      * intros (pre & line & post & -> & Ha & Hlater). exists pre, line, (app post [x]).
        split; [rewrite <- app_assoc; reflexivity|]. split; [exact Ha|].
        intros l' t'' Hin. apply in_app_or in Hin as [Hin|[<-|[]]]; [apply (Hlater _ _ Hin)|apply Hno].
      * intros (pre & line & post & Heq & Ha & Hlater).
        destruct (split_last pre post lines line x (eq_sym Heq)) as [(_ & _ & ->)|(p' & -> & ->)].
        -- exfalso. exact (Hno _ _ Ha).
        -- exists pre, line, p'. split; [reflexivity|]. split; [exact Ha|].
           intros l' t'' Hin. apply Hlater. apply in_or_app. left. exact Hin.
    + destruct (String.eqb k k') eqn:Ek.
      * apply String.eqb_eq in Ek. subst k'. rewrite get_set_eq. split.
        -- intros [=<-]. exists lines, x, []. split; [reflexivity|]. split; [exact Hacc|].
           intros _ _ [].
        -- intros (pre & line & post & Heq & Ha & Hlater).
           destruct (split_last pre post lines line x (eq_sym Heq)) as [(_ & _ & ->)|(p' & -> & _)].
           ++ destruct (accepts_functional _ _ _ _ _ _ Hacc Ha) as [_ ->]. reflexivity.
           ++ exfalso. apply (Hlater x t'); [apply in_or_app; right; left; reflexivity|exact Hacc].
      * apply String.eqb_neq in Ek. rewrite get_set_neq by exact Ek.
        rewrite IH. split.
        -- intros (pre & line & post & -> & Ha & Hlater). exists pre, line, (app post [x]).
           split; [rewrite <- app_assoc; reflexivity|]. split; [exact Ha|].
           intros l' t'' Hin. apply in_app_or in Hin as [Hin|[<-|[]]]; [apply (Hlater _ _ Hin)|].
           intros Ha'. apply Ek. symmetry. exact (proj1 (accepts_functional _ _ _ _ _ _ Hacc Ha')).
        -- intros (pre & line & post & Heq & Ha & Hlater).
           destruct (split_last pre post lines line x (eq_sym Heq)) as [(_ & _ & ->)|(p' & -> & ->)].
           ++ exfalso. apply Ek. symmetry. exact (proj1 (accepts_functional _ _ _ _ _ _ Hacc Ha)).
           ++ exists pre, line, p'. split; [reflexivity|]. split; [exact Ha|].
              intros l' t'' Hin. apply Hlater. apply in_or_app. left. exact Hin.
Qed.

Lemma load_kraken_read_map_entry_witness :
  load_kraken_read_map
    [LineageTests.tab_line ["C"; "r1"; "10"]; LineageTests.tab_line ["U"; "r2"; "0"];
     LineageTests.tab_line ["C"; "@r1 1:N:0"; "20"]] true = Ok (Dict.set Dict.empty "r1" "20") /\
  (Dict.get (Dict.set Dict.empty "r1" "20") "r1" = Some "20" <->
   exists pre line post,
     [LineageTests.tab_line ["C"; "r1"; "10"]; LineageTests.tab_line ["U"; "r2"; "0"];
      LineageTests.tab_line ["C"; "@r1 1:N:0"; "20"]] = app pre (line :: post) /\
     accepts true line "r1" "20" /\
     forall line' t', In line' post -> ~ accepts true line' "r1" t').
Proof.
  assert (H : load_kraken_read_map
    [LineageTests.tab_line ["C"; "r1"; "10"]; LineageTests.tab_line ["U"; "r2"; "0"];
     LineageTests.tab_line ["C"; "@r1 1:N:0"; "20"]] true = Ok (Dict.set Dict.empty "r1" "20"))
    by (vm_compute; reflexivity).
  split; [exact H|]. exact (load_kraken_read_map_entry _ true _ H "r1" "20").
Defined.

End KrakenExtra.

Module ReportExtra.
Import Py Lineage LineageSpec DictFacts.

Lemma fold_report_rows lines st :
  fold_left report_step lines st = fold_left row_step (report_rows lines) st.
Proof.
  revert st. induction lines as [|x xs IH]; intros st; [reflexivity|].
  cbn [fold_left report_rows flat_map]. unfold report_step at 2.
  destruct (parse_row x) as [r|]; cbn [app fold_left]; apply IH.
Qed.

Lemma fold_rows_keys rows st t :
  (exists v, Dict.get (taxid_to_lineage (fold_left row_step rows st)) t = Some v) <->
  (exists v, Dict.get (taxid_to_lineage st) t = Some v) \/
  exists r, In r rows /\ taxid r = t /\ is_genus_or_species (rank r) = true.
Proof.
  revert st. induction rows as [|r rs IH]; intros st; cbn [fold_left].
  - split; [intros H; left; exact H|]. intros [H|(r & [] & _)]. exact H.
  - rewrite IH. unfold row_step, is_genus_or_species.
    destruct (String.eqb (rank r) "G" || String.eqb (rank r) "S") eqn:Eg; cbn [taxid_to_lineage].
    + destruct (String.eqb t (taxid r)) eqn:Et.
      * apply String.eqb_eq in Et. subst t. rewrite get_set_eq. split.
        -- intros _. right. exists r. split; [left; reflexivity|]. split; [reflexivity|exact Eg].
        -- intros _. left. eexists. reflexivity.
      * apply String.eqb_neq in Et. rewrite get_set_neq by exact Et. split.
        -- intros [H|(r' & Hin & Ht & Hg)]; [left; exact H|].
           right. exists r'. split; [right; exact Hin|]. split; assumption.
        -- intros [H|(r' & [<-|Hin] & Ht & Hg)]; [left; exact H| |].
           ++ exfalso. apply Et. symmetry. exact Ht.
           ++ right. exists r'. split; [exact Hin|]. split; assumption.
    + split.
      * intros [H|(r' & Hin & Ht & Hg)]; [left; exact H|].
        right. exists r'. split; [right; exact Hin|]. split; assumption.
      * intros [H|(r' & [<-|Hin] & Ht & Hg)]; [left; exact H| |].
        -- unfold is_genus_or_species in Hg. rewrite Hg in Eg. discriminate Eg.
        -- right. exists r'. split; [exact Hin|]. split; assumption.
Qed.

(** The taxids that [parse_report_build_label_map] maps to a lineage are
    exactly the taxid columns of the genus ("G") and species ("S") rows
    the loop does not skip; rows of any other rank never add a key. *)
Theorem label_map_keys (lines : list string) (t : string) :
  (exists v, Dict.get (parse_report_build_label_map lines) t = Some v) <->
  exists r, In r (report_rows lines) /\ taxid r = t /\ (rank r = "G" \/ rank r = "S").
Proof.
  unfold parse_report_build_label_map. rewrite fold_report_rows, fold_rows_keys.
  cbn [taxid_to_lineage]. split.
  - intros [[v H]|(r & Hin & Ht & Hg)]; [discriminate H|].
    exists r. split; [exact Hin|]. split; [exact Ht|].
    unfold is_genus_or_species in Hg. apply orb_true_iff in Hg as [H|H];
      apply String.eqb_eq in H; [left|right]; exact H.
  - intros (r & Hin & Ht & Hg). right. exists r. split; [exact Hin|]. split; [exact Ht|].
    unfold is_genus_or_species. destruct Hg as [-> | ->]; reflexivity.
Qed.

(** Blank lines and lines with fewer than six tab-separated fields have
    no effect wherever they stand: two reports with the same sequence of
    parsed rows give the same taxid-to-lineage map. *)
Theorem label_map_ignores_skipped_lines (lines1 lines2 : list string)
    (Hrows : report_rows lines1 = report_rows lines2) :
  parse_report_build_label_map lines1 = parse_report_build_label_map lines2.
Proof.
  unfold parse_report_build_label_map. rewrite !fold_report_rows, Hrows. reflexivity.
Qed.

Lemma label_map_ignores_skipped_lines_witness :
  report_rows (app ["   "; LineageTests.tab_line ["x"; "y"]] LineageTests.sample_report) =
    report_rows LineageTests.sample_report /\
  parse_report_build_label_map (app ["   "; LineageTests.tab_line ["x"; "y"]] LineageTests.sample_report) =
    parse_report_build_label_map LineageTests.sample_report.
Proof.
  assert (H : report_rows (app ["   "; LineageTests.tab_line ["x"; "y"]] LineageTests.sample_report) =
              report_rows LineageTests.sample_report) by (vm_compute; reflexivity).
  split; [exact H|]. exact (label_map_ignores_skipped_lines _ _ H).
Defined.

End ReportExtra.

Module CacheExtra.
Import Py Cache WriterProofs CacheProofs.

Lemma compare_as_OT a b : String.compare a b = OrdersEx.String_as_OT.compare a b.
Proof.
  revert b. induction a as [|c a IH]; intros [|d b]; reflexivity.
Qed.

Lemma name_rel_iff a b :
  name_rel a b <-> OrdersEx.String_as_OT.lt (ename a) (ename b) \/ ename a = ename b.
Proof.
  unfold name_rel, name_le. rewrite compare_as_OT.
  destruct (OrdersEx.String_as_OT.compare_spec (ename a) (ename b)) as [E|E|E]; cbn.
  - split; [intros _; right; exact E|reflexivity].
  - split; [intros _; left; exact E|reflexivity].
  - split; [discriminate|]. intros [H|H]; exfalso.
    + apply (StrictOrder_Irreflexive (ename a)). exact (StrictOrder_Transitive _ _ _ H E).
    + rewrite H in E. apply (StrictOrder_Irreflexive (ename b)). exact E.
Qed.

Lemma name_rel_trans a b c : name_rel a b -> name_rel b c -> name_rel a c.
Proof.
  rewrite !name_rel_iff. intros [H1|H1] [H2|H2].
  - left. exact (StrictOrder_Transitive _ _ _ H1 H2).
  - left. rewrite <- H2. exact H1.
  - left. rewrite H1. exact H2.
  - right. congruence.
Qed.

Lemma name_rel_antisym a b : name_rel a b -> name_rel b a -> ename a = ename b.
Proof.
  rewrite !name_rel_iff. intros [H1|H1] [H2|H2]; try congruence.
  exfalso. apply (StrictOrder_Irreflexive (ename a)). exact (StrictOrder_Transitive _ _ _ H1 H2).
Qed.

Lemma sorted_perm_unique l1 l2 :
  Sorted name_rel l1 -> Sorted name_rel l2 -> Permutation l1 l2 -> NoDup (map ename l1) -> l1 = l2.
Proof.
  intros S1 S2. apply Sorted_StronglySorted in S1; [|exact name_rel_trans].
  apply Sorted_StronglySorted in S2; [|exact name_rel_trans].
  revert l2 S2. induction S1 as [|a t1 S1 IH F1]; intros l2 S2 P Hnd.
  - symmetry. apply Permutation_nil, P.
  - destruct S2 as [|b t2 S2 F2].
    + apply Permutation_sym, Permutation_nil in P. discriminate P.
    + cbn in Hnd. inversion Hnd as [|? ? Hna Hnd']; subst.
      assert (Heq : a = b).
      { destruct (Permutation_in b (Permutation_sym P) (in_eq b t2)) as [E|Hb]; [exact E|].
        destruct (Permutation_in a P (in_eq a t1)) as [E|Ha]; [symmetry; exact E|].
        exfalso. apply Hna. rewrite (name_rel_antisym a b).
        - apply in_map, Hb.
        - apply (proj1 (Forall_forall _ _) F1 b Hb).
        - apply (proj1 (Forall_forall _ _) F2 a Ha). }
      subst b. f_equal. apply IH; [exact S2| apply Permutation_cons_inv with a, P | exact Hnd'].
Qed.

Lemma perm_filter {A} (f : A -> bool) l1 l2 :
  Permutation l1 l2 -> Permutation (filter f l1) (filter f l2).
Proof.
  induction 1 as [|x l1 l2 _ IH|x y l|l1 l2 l3 _ IH1 _ IH2]; cbn.
  - constructor.
  - destruct (f x); [constructor|]; exact IH.
  - destruct (f x), (f y); try constructor; reflexivity.
  - eapply perm_trans; eassumption.
Qed.

Lemma sort_name_listing_order l1 l2 :
  Permutation l1 l2 -> NoDup (map ename l1) -> sort_by_name l1 = sort_by_name l2.
Proof.
  intros P Hnd. apply sorted_perm_unique; try apply sort_name_sorted.
  - rewrite !sort_name_perm. exact P.
  - eapply Permutation_NoDup; [apply Permutation_map, Permutation_sym, sort_name_perm|exact Hnd].
Qed.

(** The cache key and the lookup-or-build step do not depend on the order
    in which the fragment directory lists its entries: for two listings
    of the same entries (entry names in a directory are distinct), the
    fingerprint, the returned path, the artifact content and the updated
    cache are the same. *)
Theorem build_or_get_listing_order (hex16 : string -> string)
    (os_read : entry -> result string) (partial : entry -> string)
    (dir1 dir2 : list entry) (cd : cache_dir)
    (Hperm : Permutation dir1 dir2) (Hnd : NoDup (map ename dir1)) :
  bins_cache_key hex16 dir1 = bins_cache_key hex16 dir2 /\
  build_or_get_binned_reference hex16 os_read partial dir1 cd =
    build_or_get_binned_reference hex16 os_read partial dir2 cd.
Proof.
  assert (Hk : bins_cache_key hex16 dir1 = bins_cache_key hex16 dir2).
  { unfold bins_cache_key, digest_input. rewrite (sort_name_listing_order dir1 dir2 Hperm Hnd).
    reflexivity. }
  split; [exact Hk|].
  unfold build_or_get_binned_reference, artifact_name. rewrite Hk.
  rewrite (sort_name_listing_order (filter matches_fa dir1) (filter matches_fa dir2)).
  - reflexivity.
  - apply perm_filter, Hperm.
  - apply NoDup_map_filter, Hnd.
Qed.

Definition listing : list entry :=
  [mk_entry "b.fa" true 3 (1700000000 # 1) "BBB"; mk_entry "notes.txt" true 1 (5 # 2) "N";
   mk_entry "a.fasta" true 2 (1700000001 # 2) "AA"].

Lemma build_or_get_listing_order_witness :
  Permutation listing (rev listing) /\ NoDup (map ename listing) /\
  (bins_cache_key (fun s => s) listing = bins_cache_key (fun s => s) (rev listing) /\
   build_or_get_binned_reference (fun s => s) (fun e => Ok (bytes e)) (fun _ => EmptyString) listing (mk_cache [] 0) =
     build_or_get_binned_reference (fun s => s) (fun e => Ok (bytes e)) (fun _ => EmptyString) (rev listing) (mk_cache [] 0)).
Proof.
  assert (Hp : Permutation listing (rev listing)) by apply Permutation_rev.
  assert (Hn : NoDup (map ename listing)).
  { cbn. repeat constructor; cbn; intuition discriminate. }
  split; [exact Hp|]. split; [exact Hn|].
  exact (build_or_get_listing_order (fun s => s) (fun e => Ok (bytes e)) (fun _ => EmptyString) listing (rev listing) (mk_cache [] 0) Hp Hn).
Defined.

(** A failed build is not retried: [open(ref, "w")] has already created
    the artifact when the copy loop raises, so the next call for a
    directory with the same (name, size, whole-second mtime) tuples
    returns the path of that truncated artifact, written by the failed
    call, and changes nothing. *)
Theorem failed_build_reused (hex16 : string -> string) (os_read : entry -> result string)
    (partial : entry -> string) (dir dir2 : list entry) (cd cd1 : cache_dir) (err : exn)
    (Hfail : build_or_get_binned_reference hex16 os_read partial dir cd = (Raise err, cd1))
    (Htup : tuples dir = tuples dir2) :
  build_or_get_binned_reference hex16 os_read partial dir2 cd1 =
    (Ok (artifact_name hex16 dir), cd1) /\
  Dict.get (artifacts cd1) (artifact_name hex16 dir) =
    Some (mk_artifact (fst (copy_all os_read partial (sort_by_name (filter matches_fa dir))))
                      (clock cd)).
Proof.
  unfold build_or_get_binned_reference in Hfail.
  destruct (Dict.get (artifacts cd) (artifact_name hex16 dir)) as [a|]; [discriminate|].
  destruct (copy_all os_read partial (sort_by_name (filter matches_fa dir))) as [data [u|e]];
    [discriminate|].
  injection Hfail as _ <-.
  assert (G : Dict.get (artifacts (mk_cache (Dict.set (artifacts cd) (artifact_name hex16 dir)
                                              (mk_artifact data (clock cd))) (clock cd + 1)))
                       (artifact_name hex16 dir) = Some (mk_artifact data (clock cd)))
    by apply DictFacts.get_set_eq.
  split; [|exact G].
  unfold build_or_get_binned_reference. rewrite <- (key_of_tuples hex16 dir dir2 Htup), G.
  reflexivity.
Qed.

Definition bad_listing : list entry :=
  [mk_entry "a.fa" true 1 (7 # 1) "A"; mk_entry "b.fa" true 1 (7 # 1) (String (ascii_of_nat 255) EmptyString)].

Lemma failed_build_reused_witness :
  build_or_get_binned_reference (fun s => s) (fun e => Ok (bytes e)) (fun _ => EmptyString)
    bad_listing (mk_cache [] 0) =
    (Raise UnicodeDecodeError,
     mk_cache [(artifact_name (fun s => s) bad_listing, mk_artifact "A" 0)] 1) /\
  build_or_get_binned_reference (fun s => s) (fun e => Ok (bytes e)) (fun _ => EmptyString)
    bad_listing (mk_cache [(artifact_name (fun s => s) bad_listing, mk_artifact "A" 0)] 1) =
    (Ok (artifact_name (fun s => s) bad_listing),
     mk_cache [(artifact_name (fun s => s) bad_listing, mk_artifact "A" 0)] 1).
Proof.
  assert (H : build_or_get_binned_reference (fun s => s) (fun e => Ok (bytes e)) (fun _ => EmptyString)
                bad_listing (mk_cache [] 0) =
              (Raise UnicodeDecodeError,
               mk_cache [(artifact_name (fun s => s) bad_listing, mk_artifact "A" 0)] 1))
    by (vm_compute; reflexivity).
  split; [exact H|].
  exact (proj1 (failed_build_reused _ _ _ bad_listing bad_listing _ _ _ H eq_refl)).
Defined.

End CacheExtra.

Module TextModeTests.
Import Py Cache.

Definition bytes_of (l : list nat) : string :=
  fold_right (fun n s => String (ascii_of_nat n) s) EmptyString l.

(** Two-, three- and four-byte sequences are accepted; an overlong form,
    a surrogate, a code point above U+10FFFF and a cut sequence are not. *)
Example utf8_valid_cases :
  map (fun l => utf8_valid (bytes_of l))
    ([[195; 169]; [226; 130; 172]; [240; 159; 152; 128];
     [192; 128]; [237; 160; 128]; [244; 144; 128; 128]; [226; 130]])%nat =
  [true; true; true; false; false; false; false].
Proof. vm_compute. reflexivity. Qed.

(** "a\r\r\nb\r" reads as "a\n\nb\n". *)
Example universal_newlines_cases :
  universal_newlines (bytes_of [97; 13; 13; 10; 98; 13]%nat) = bytes_of [97; 10; 10; 98; 10]%nat.
Proof. vm_compute. reflexivity. Qed.

End TextModeTests.
